(** * GuidFixer: the lighting-GUID deduplication passes of the editor plugin

    Shallow embedding of [Source/GuidFixer/Private/GuidFixer.cpp]:
    [ShouldModify], [FixMaterialGuids], [FixTextureGuids] and
    [FixEmptyTextureGuids], over an explicit heap of engine objects, and the
    properties of the three passes. *)

From Stdlib Require Import NArith.
From stdpp Require Import base option gmap strings list fin_maps.

Open Scope string_scope.
Open Scope nat_scope.

(** ** Engine side: identifiers, objects, the log *)

(** [FGuid] is the engine's 128-bit identifier; an object pointer is an
    address in the heap of live engine objects. *)
Abbreviation FGuid := N (only parsing).
Abbreviation ptr := nat (only parsing).

(** Modelled from the spec: [FGuid::IsValid] is engine code; the glossary says
    an identifier is invalid when it is unset, that is zeroed. *)
Definition IsValid (g : FGuid) : bool := negb (g =? 0)%N.

(** Modelled from the spec: [FString::StartsWith] is engine code; ownership is
    derived from the path prefix. *)
Definition StartsWith (s pre : string) : bool := String.prefix pre s.

(** What the passes touch of a [UMaterialInterface] or a [UTexture]: its path
    name, its lighting GUID, and the pending-change mark left by [Modify]. *)
Record UObject := {
  PathName : string;
  LightingGuid : FGuid;
  Dirty : bool
}.

Inductive ELogVerbosity := Display | Warning.

(** The host: the heap of live objects, the number of identifiers handed out
    by [FGuid::NewGuid] so far, and the lines written to [LogTemp]. *)
Record World := {
  objects : gmap nat UObject;
  NewGuidCalls : nat;
  LogTemp : list (ELogVerbosity * string)
}.

(** The two flags every pass accumulates. *)
Record Flags := {
  bMadeChanges : bool;
  bHasWarnings : bool
}.

(** The locals of a collision pass: the host, the [TMap] from identifier to
    object, and the flags. *)
Record Scan := {
  world : World;
  Guids : gmap N nat;
  flags : Flags
}.

Definition set_bMadeChanges (f : Flags) : Flags :=
  {| bMadeChanges := true; bHasWarnings := bHasWarnings f |}.

Definition set_bHasWarnings (f : Flags) : Flags :=
  {| bMadeChanges := bMadeChanges f; bHasWarnings := true |}.

Definition no_flags : Flags := {| bMadeChanges := false; bHasWarnings := false |}.

Definition GetLightingGuid (w : World) (p : ptr) : option FGuid :=
  LightingGuid <$> objects w !! p.

Definition GetPathName (w : World) (p : ptr) : option string :=
  PathName <$> objects w !! p.

Definition UE_LOG (v : ELogVerbosity) (msg : string) (w : World) : World :=
  {| objects := objects w; NewGuidCalls := NewGuidCalls w;
     LogTemp := LogTemp w ++ [(v, msg)] |}.

(** [Modify] registers the pending change on the object. *)
Definition Modify (p : ptr) (w : World) : option World :=
  o ← objects w !! p;
  Some {| objects := <[p := {| PathName := PathName o;
                               LightingGuid := LightingGuid o;
                               Dirty := true |}]> (objects w);
          NewGuidCalls := NewGuidCalls w;
          LogTemp := LogTemp w |}.

(** Outcome of the first statement of a loop body: [continue], or go on with
    the rest of the body. *)
Inductive Flow (S : Type) :=
| Continue (s : S)
| Proceed (s : S).
Arguments Continue {S} s.
Arguments Proceed {S} s.

(** [for (TObjectIterator<T> It; It; ++It) body]: the iterator yields the live
    objects of the class one after the other, [it] in the order of the
    iteration. The engine yields each object once; the properties that depend
    on it say so ([NoDup it]). *)
Fixpoint TObjectIterator {S : Type} (body : ptr → S → option S)
    (it : list ptr) (s : S) : option S :=
  match it with
  | [] => Some s
  | p :: it' => s' ← body p s; TObjectIterator body it' s'
  end.

(** The identifier generator of the host: [NewGuid n] is the value the
    [n]-th call of [FGuid::NewGuid] returns. *)
Class GuidGenerator := NewGuid : nat → FGuid.

Section GuidFixer.

Context {generator : GuidGenerator}.

(** [SetLightingGuid()] without argument draws a new identifier. *)
Definition SetLightingGuid (p : ptr) (w : World) : option World :=
  o ← objects w !! p;
  Some {| objects := <[p := {| PathName := PathName o;
                               LightingGuid := NewGuid (NewGuidCalls w);
                               Dirty := Dirty o |}]> (objects w);
          NewGuidCalls := S (NewGuidCalls w);
          LogTemp := LogTemp w |}.

(** ** [FGuidFixerModule::ShouldModify] *)

Definition ShouldModify (w : World) (Object : ptr) : option bool :=
  path ← GetPathName w Object;
  let bIsEngineContent := StartsWith path "/Engine/" in
  let bIsProjectContent := StartsWith path "/Game/" in
  let bIsPluginContent := negb bIsEngineContent && negb bIsProjectContent in
  Some bIsProjectContent.

(** ** [FGuidFixerModule::FixMaterialGuids] *)

(** Lines 96-111: a material without a valid identifier. *)
Definition FixMaterialGuids_invalid (Material : ptr) (s : Scan) : option (Flow Scan) :=
  g ← GetLightingGuid (world s) Material;
  if negb (IsValid g) then
    sm ← ShouldModify (world s) Material;
    if (sm : bool) then
      w1 ← SetLightingGuid Material (world s);
      w2 ← Modify Material w1;
      path ← GetPathName w2 Material;
      Some (Proceed
        {| world := UE_LOG Display (path +:+ ": Material has had its GUID updated.") w2;
           Guids := Guids s;
           flags := set_bMadeChanges (flags s) |})
    else
      path ← GetPathName (world s) Material;
      Some (Continue
        {| world := UE_LOG Warning (path +:+ ": Material has invalid GUID but is specified not to be modified. @see FGuidFixerModule::ShouldModify()") (world s);
           Guids := Guids s;
           flags := set_bHasWarnings (flags s) |})
  else Some (Proceed s).

(** Lines 123-134: the object found in the map, if it still carries the
    identifier of the current one. The boolean is the local
    [bAnyGuidsModified], [false] on entry (line 119). *)
Definition FixMaterialGuids_incumbent (Material ResultRef : ptr)
    (CacheCurrentGuid : FGuid) (s : Scan) : option (Scan * bool) :=
  gr ← GetLightingGuid (world s) ResultRef;
  gm ← GetLightingGuid (world s) Material;
  if bool_decide (gr = gm) then
    sm ← ShouldModify (world s) ResultRef;
    if (sm : bool) then
      w1 ← SetLightingGuid ResultRef (world s);
      w2 ← Modify ResultRef w1;
      g' ← GetLightingGuid w2 ResultRef;
      path ← GetPathName w2 ResultRef;
      Some ({| world := UE_LOG Display (path +:+ ": Material has had its GUID updated.") w2;
               Guids := <[g' := ResultRef]> (delete CacheCurrentGuid (Guids s));
               flags := flags s |}, true)
    else Some (s, false)
  else Some (s, false).

(** Lines 136-144: the current object. *)
Definition FixMaterialGuids_current (Material : ptr) (x : Scan * bool) :
    option (Scan * bool) :=
  sm ← ShouldModify (world x.1) Material;
  if (sm : bool) then
    w1 ← SetLightingGuid Material (world x.1);
    w2 ← Modify Material w1;
    g' ← GetLightingGuid w2 Material;
    path ← GetPathName w2 Material;
    Some ({| world := UE_LOG Display (path +:+ ": Material has had its GUID updated.") w2;
             Guids := <[g' := Material]> (Guids x.1);
             flags := set_bMadeChanges (flags x.1) |}, true)
  else Some x.

(** Lines 146-150. *)
Definition FixMaterialGuids_unresolved (Material ResultRef : ptr) (x : Scan * bool) :
    option Scan :=
  if negb x.2 then
    pm ← GetPathName (world x.1) Material;
    pr ← GetPathName (world x.1) ResultRef;
    Some {| world := UE_LOG Warning (pm +:+ ": Material has conflicting GUID with " +:+ pr +:+ " but both are specified not to be modified. @see FGuidFixerModule::ShouldModify()") (world x.1);
            Guids := Guids x.1;
            flags := set_bHasWarnings (flags x.1) |}
  else Some x.1.

(** Lines 113-155: the lookup in the map, the collision branch and the
    registration of an identifier seen for the first time. *)
Definition FixMaterialGuids_lookup (Material : ptr) (s : Scan) : option Scan :=
  CacheCurrentGuid ← GetLightingGuid (world s) Material;
  match Guids s !! CacheCurrentGuid with
  | Some ResultRef =>
      x ← FixMaterialGuids_incumbent Material ResultRef CacheCurrentGuid s;
      y ← FixMaterialGuids_current Material x;
      FixMaterialGuids_unresolved Material ResultRef y
  | None =>
      g ← GetLightingGuid (world s) Material;
      Some {| world := world s; Guids := <[g := Material]> (Guids s); flags := flags s |}
  end.

Definition FixMaterialGuids_body (Material : ptr) (s : Scan) : option Scan :=
  f ← FixMaterialGuids_invalid Material s;
  match f with
  | Continue s' => Some s'
  | Proceed s' => FixMaterialGuids_lookup Material s'
  end.

(** Lines 158-164. *)
Definition MaterialDialogText (f : Flags) : string :=
  let DialogText := "No duplicate material GUIDs found." in
  if bMadeChanges f && bHasWarnings f then
    "At least one material GUID has been changed, but there are some unresolvable issues (Please refer to log). Use save all to save these changes."
  else if bMadeChanges f then
    "At least one material GUID has been changed. Use save all to save these changes."
  else if bHasWarnings f then
    "No material GUID has been changed, but there are some unresolvable issues (Please refer to log)."
  else DialogText.

(** Lines 90-93 and 170-173: the locals of a collision pass before its loop. *)
Definition start (w : World) : Scan :=
  {| world := w; Guids := ∅; flags := no_flags |}.

(** The pass: the materials the iterator yields, the host before; the host
    after and the text of the dialog. *)
Definition FixMaterialGuids (Materials : list ptr) (w : World) : option (World * string) :=
  s ← TObjectIterator FixMaterialGuids_body Materials (start w);
  Some (world s, MaterialDialogText (flags s)).

(** ** [FGuidFixerModule::FixTextureGuids] *)

(** Lines 176-181. *)
Definition FixTextureGuids_invalid (Texture : ptr) (s : Scan) : option (Flow Scan) :=
  g ← GetLightingGuid (world s) Texture;
  if negb (IsValid g) then
    path ← GetPathName (world s) Texture;
    Some (Continue
      {| world := UE_LOG Warning (path +:+ ": Texture has invalid GUID but is not modified. Fix this by running Tools -> GUID Fixer -> Fix Empty Texture Guids") (world s);
         Guids := Guids s;
         flags := set_bHasWarnings (flags s) |})
  else Some (Proceed s).

(** Lines 193-204: the object found in the map, if it still carries the
    identifier of the current one. The boolean is the local
    [bAnyGuidsModified], [false] on entry (line 189). *)
Definition FixTextureGuids_incumbent (Texture ResultRef : ptr)
    (CacheCurrentGuid : FGuid) (s : Scan) : option (Scan * bool) :=
  gr ← GetLightingGuid (world s) ResultRef;
  gm ← GetLightingGuid (world s) Texture;
  if bool_decide (gr = gm) then
    sm ← ShouldModify (world s) ResultRef;
    if (sm : bool) then
      w1 ← SetLightingGuid ResultRef (world s);
      w2 ← Modify ResultRef w1;
      g' ← GetLightingGuid w2 ResultRef;
      path ← GetPathName w2 ResultRef;
      Some ({| world := UE_LOG Display (path +:+ ": Texture has had its GUID updated.") w2;
               Guids := <[g' := ResultRef]> (delete CacheCurrentGuid (Guids s));
               flags := flags s |}, true)
    else Some (s, false)
  else Some (s, false).

(** Lines 206-214: the current object. *)
Definition FixTextureGuids_current (Texture : ptr) (x : Scan * bool) :
    option (Scan * bool) :=
  sm ← ShouldModify (world x.1) Texture;
  if (sm : bool) then
    w1 ← SetLightingGuid Texture (world x.1);
    w2 ← Modify Texture w1;
    g' ← GetLightingGuid w2 Texture;
    path ← GetPathName w2 Texture;
    Some ({| world := UE_LOG Display (path +:+ ": Texture has had its GUID updated.") w2;
             Guids := <[g' := Texture]> (Guids x.1);
             flags := set_bMadeChanges (flags x.1) |}, true)
  else Some x.

(** Lines 216-220. *)
Definition FixTextureGuids_unresolved (Texture ResultRef : ptr) (x : Scan * bool) :
    option Scan :=
  if negb x.2 then
    pm ← GetPathName (world x.1) Texture;
    pr ← GetPathName (world x.1) ResultRef;
    Some {| world := UE_LOG Warning (pm +:+ ": Texture has conflicting GUID with " +:+ pr +:+ " but both are specified not to be modified. @see FGuidFixerModule::ShouldModify()") (world x.1);
            Guids := Guids x.1;
            flags := set_bHasWarnings (flags x.1) |}
  else Some x.1.

(** Lines 183-225: the lookup in the map, the collision branch and the
    registration of an identifier seen for the first time. *)
Definition FixTextureGuids_lookup (Texture : ptr) (s : Scan) : option Scan :=
  CacheCurrentGuid ← GetLightingGuid (world s) Texture;
  match Guids s !! CacheCurrentGuid with
  | Some ResultRef =>
      x ← FixTextureGuids_incumbent Texture ResultRef CacheCurrentGuid s;
      y ← FixTextureGuids_current Texture x;
      FixTextureGuids_unresolved Texture ResultRef y
  | None =>
      g ← GetLightingGuid (world s) Texture;
      Some {| world := world s; Guids := <[g := Texture]> (Guids s); flags := flags s |}
  end.

Definition FixTextureGuids_body (Texture : ptr) (s : Scan) : option Scan :=
  f ← FixTextureGuids_invalid Texture s;
  match f with
  | Continue s' => Some s'
  | Proceed s' => FixTextureGuids_lookup Texture s'
  end.

(** Lines 228-234. *)
Definition TextureDialogText (f : Flags) : string :=
  let DialogText := "No duplicate texture GUIDs found." in
  if bMadeChanges f && bHasWarnings f then
    "At least one texture GUID has been changed, but there are some unresolvable issues (Please refer to log). Use save all to save these changes."
  else if bMadeChanges f then
    "At least one texture GUID has been changed. Use save all to save these changes."
  else if bHasWarnings f then
    "No texture GUID has been changed, but there are some unresolvable issues (Please refer to log)."
  else DialogText.

Definition FixTextureGuids (Textures : list ptr) (w : World) : option (World * string) :=
  s ← TObjectIterator FixTextureGuids_body Textures (start w);
  Some (world s, TextureDialogText (flags s)).

(** ** [FGuidFixerModule::FixEmptyTextureGuids] *)

(** Lines 244-260; the locals of this pass are the two flags only. *)
Definition FixEmptyTextureGuids_body (Texture : ptr) (s : World * Flags) : option (World * Flags) :=
  g ← GetLightingGuid s.1 Texture;
  if IsValid g then Some s
  else
    sm ← ShouldModify s.1 Texture;
    if (sm : bool) then
      w1 ← SetLightingGuid Texture s.1;
      w2 ← Modify Texture w1;
      path ← GetPathName w2 Texture;
      Some (UE_LOG Display (path +:+ ": Texture has had its GUID updated.") w2,
            set_bMadeChanges s.2)
    else
      path ← GetPathName s.1 Texture;
      Some (UE_LOG Warning (path +:+ ": Texture has invalid GUID but is specified not to be modified. @see FGuidFixerModule::ShouldModify()") s.1,
            set_bHasWarnings s.2).

(** Lines 263-269. *)
Definition EmptyTextureDialogText (f : Flags) : string :=
  let DialogText := "No empty texture GUIDs found." in
  if bMadeChanges f && bHasWarnings f then
    "At least one texture GUID has been changed, but there are some unresolvable issues (Please refer to log). Use save all to save these changes."
  else if bMadeChanges f then
    "At least one texture GUID has been changed. Use save all to save these changes."
  else if bHasWarnings f then
    "No texture GUID has been changed, but there are some unresolvable issues (Please refer to log)."
  else DialogText.

Definition FixEmptyTextureGuids (Textures : list ptr) (w : World) : option (World * string) :=
  s ← TObjectIterator FixEmptyTextureGuids_body Textures (w, no_flags);
  Some (s.1, EmptyTextureDialogText s.2).

(** ** The effect of each statement on live objects *)

(** Ownership by the project, the test of [ShouldModify] on the object. *)
Definition IsProjectContent (o : UObject) : bool := StartsWith (PathName o) "/Game/".

Definition renew (g : FGuid) (o : UObject) : UObject :=
  {| PathName := PathName o; LightingGuid := g; Dirty := true |}.

(** [p->SetLightingGuid(); p->Modify();] on the live object [o] at [p]. *)
Definition assigned (p : ptr) (o : UObject) (w : World) : World :=
  {| objects := <[p := renew (NewGuid (NewGuidCalls w)) o]> (objects w);
     NewGuidCalls := S (NewGuidCalls w);
     LogTemp := LogTemp w |}.

(** The same, followed by the line of the log that reports it. *)
Definition fixed (p : ptr) (o : UObject) (line : string) (w : World) : World :=
  UE_LOG Display (PathName o +:+ line) (assigned p o w).

Definition fix_invalid (p : ptr) (o : UObject) (line : string) (s : Scan) : Scan :=
  {| world := fixed p o line (world s);
     Guids := Guids s;
     flags := set_bMadeChanges (flags s) |}.

Definition fix_incumbent (r : ptr) (o : UObject) (g : FGuid) (line : string) (s : Scan) : Scan :=
  {| world := fixed r o line (world s);
     Guids := <[NewGuid (NewGuidCalls (world s)) := r]> (delete g (Guids s));
     flags := flags s |}.

Definition fix_current (p : ptr) (o : UObject) (line : string) (s : Scan) : Scan :=
  {| world := fixed p o line (world s);
     Guids := <[NewGuid (NewGuidCalls (world s)) := p]> (Guids s);
     flags := set_bMadeChanges (flags s) |}.

Definition warned (line : string) (s : Scan) : Scan :=
  {| world := UE_LOG Warning line (world s);
     Guids := Guids s;
     flags := set_bHasWarnings (flags s) |}.

Definition entered (g : FGuid) (p : ptr) (s : Scan) : Scan :=
  {| world := world s; Guids := <[g := p]> (Guids s); flags := flags s |}.

(** ** The collision branch as a function of the objects it reads

    The bodies of [FixMaterialGuids] and [FixTextureGuids] differ after the
    first statement in the wording of the log only; these are their pieces
    with the lines of the log as parameters. *)

Definition incumbent_of (line : string) (m r : ptr) (g : FGuid) (s : Scan) :
    option (Scan * bool) :=
  o ← objects (world s) !! r;
  om ← objects (world s) !! m;
  Some (if bool_decide (LightingGuid o = LightingGuid om) && IsProjectContent o
        then (fix_incumbent r o g line s, true)
        else (s, false)).

Definition current_of (line : string) (m : ptr) (x : Scan * bool) : option (Scan * bool) :=
  om ← objects (world x.1) !! m;
  Some (if IsProjectContent om then (fix_current m om line x.1, true) else x).

Definition unresolved_of (mid tail : string) (m r : ptr) (x : Scan * bool) : option Scan :=
  if x.2 then Some x.1
  else
    om ← objects (world x.1) !! m;
    o ← objects (world x.1) !! r;
    Some (warned (PathName om +:+ mid +:+ PathName o +:+ tail) x.1).

Definition lookup_of (line mid tail : string) (m : ptr) (s : Scan) : option Scan :=
  om ← objects (world s) !! m;
  match Guids s !! LightingGuid om with
  | Some r =>
      x ← incumbent_of line m r (LightingGuid om) s;
      y ← current_of line m x;
      unresolved_of mid tail m r y
  | None => Some (entered (LightingGuid om) m s)
  end.

(** ** Vocabulary of the properties *)

(** Objects outside the project are the same in [w'] as in [w]. *)
Definition keeps (w w' : World) : Prop :=
  ∀ q o, objects w !! q = Some o → IsProjectContent o = false → objects w' !! q = Some o.

(** Every pointer has the same path name, or none, in [w'] as in [w]. *)
Definition same_paths (w w' : World) : Prop :=
  ∀ p, GetPathName w' p = GetPathName w p.



(** Every entry of the registry maps an identifier to an object that holds it. *)
Definition entries_held (s : Scan) : Prop :=
  ∀ k r, Guids s !! k = Some r → GetLightingGuid (world s) r = Some k.

(** At the lookup of a collision pass, an entry found for the identifier of
    the current object is held by its object. *)
Definition lookup_hits_holder (s1 : Scan) (m : ptr) : Prop :=
  ∀ g r, GetLightingGuid (world s1) m = Some g → Guids s1 !! g = Some r →
    GetLightingGuid (world s1) r = GetLightingGuid (world s1) m.






(** The four texts of a pass, by the two flags. *)
Definition report (clean changed unresolved both : string) (f : Flags) : string :=
  match bMadeChanges f, bHasWarnings f with
  | false, false => clean
  | true, false => changed
  | false, true => unresolved
  | true, true => both
  end.

(** The generator is fresh for a host: what it will return from now on is
    pairwise distinct and held by no object. *)
Definition Fresh (w : World) : Prop :=
  (∀ i j, NewGuidCalls w ≤ i → NewGuidCalls w ≤ j → NewGuid i = NewGuid j → i = j) ∧
  (∀ i p o, NewGuidCalls w ≤ i → objects w !! p = Some o → LightingGuid o ≠ NewGuid i).

(** C3 as the specification words it: one of the two ends with another
    identifier than it had and the other with the one it had. *)
Definition exactly_one_renewed (w w' : World) (a b : ptr) : Prop :=
  (GetLightingGuid w' a ≠ GetLightingGuid w a ∧ GetLightingGuid w' b = GetLightingGuid w b) ∨
  (GetLightingGuid w' a = GetLightingGuid w a ∧ GetLightingGuid w' b ≠ GetLightingGuid w b).

(** ** A collision pass as steps on the heap, the registry and the generator *)

Record Core := {
  heap : gmap nat UObject;
  registry : gmap N nat;
  drawn : nat
}.

Definition core (s : Scan) : Core :=
  {| heap := objects (world s); registry := Guids s; drawn := NewGuidCalls (world s) |}.

(** A new identifier for the object [o] at [p], entered in the registry. *)
Definition draw (p : ptr) (o : UObject) (c : Core) : Core :=
  {| heap := <[p := renew (NewGuid (drawn c)) o]> (heap c);
     registry := <[NewGuid (drawn c) := p]> (registry c);
     drawn := S (drawn c) |}.

Definition forget (g : FGuid) (c : Core) : Core :=
  {| heap := heap c; registry := delete g (registry c); drawn := drawn c |}.

Definition enter (g : FGuid) (p : ptr) (c : Core) : Core :=
  {| heap := heap c; registry := <[g := p]> (registry c); drawn := drawn c |}.

(** What one iteration on [m] does when every entry of the registry is held
    by its object; [strict] is the texture pass, which repairs nothing. *)
Inductive Step (strict : bool) (m : ptr) (c c' : Core) : Prop :=
| step_skip om :
    heap c !! m = Some om →
    IsValid (LightingGuid om) = false →
    strict = true ∨ IsProjectContent om = false →
    c' = c →
    Step strict m c c'
| step_repair om :
    strict = false →
    heap c !! m = Some om →
    IsValid (LightingGuid om) = false →
    IsProjectContent om = true →
    c' = draw m om c →
    Step strict m c c'
| step_enter om :
    heap c !! m = Some om →
    IsValid (LightingGuid om) = true →
    registry c !! LightingGuid om = None →
    c' = enter (LightingGuid om) m c →
    Step strict m c c'
| step_hit om r o :
    heap c !! m = Some om →
    IsValid (LightingGuid om) = true →
    registry c !! LightingGuid om = Some r →
    heap c !! r = Some o →
    r ≠ m →
    LightingGuid o = LightingGuid om →
    c' = (let c1 := if IsProjectContent o
                    then draw r o (forget (LightingGuid om) c) else c in
          if IsProjectContent om then draw m om c1 else c1) →
    Step strict m c c'.

(** The invariant of a scan started on the heap [h0] with [n0] identifiers
    drawn, once the objects [seen] have been visited. *)
Record Inv (strict : bool) (h0 : gmap nat UObject) (n0 : nat)
    (seen : list nat) (c : Core) : Prop := {
  inv_paths : ∀ p, PathName <$> heap c !! p = PathName <$> h0 !! p;
  inv_later : ∀ p, p ∉ seen → heap c !! p = h0 !! p;
  inv_held : ∀ k r, registry c !! k = Some r →
    r ∈ seen ∧ LightingGuid <$> heap c !! r = Some k;
  inv_entered : ∀ p o, p ∈ seen → heap c !! p = Some o →
    IsProjectContent o = true →
    (strict = true → IsValid (LightingGuid o) = true) →
    registry c !! LightingGuid o = Some p;
  inv_fresh : ∀ i p o, drawn c ≤ i → heap c !! p = Some o →
    LightingGuid o ≠ NewGuid i;
  inv_drawn : n0 ≤ drawn c;
  inv_inj : ∀ i j, n0 ≤ i → n0 ≤ j → NewGuid i = NewGuid j → i = j;
  inv_initial : ∀ i p o, n0 ≤ i → h0 !! p = Some o → LightingGuid o ≠ NewGuid i
}.

(** A body that fails only on a dangling pointer and otherwise makes a step. *)
Definition steps (strict : bool) (body : ptr → Scan → option Scan) : Prop :=
  (∀ m s, objects (world s) !! m = None → body m s = None) ∧
  (∀ h0 n0 seen m s,
     Inv strict h0 n0 seen (core s) → m ∉ seen → is_Some (objects (world s) !! m) →
     ∃ s', body m s = Some s' ∧ Step strict m (core s) (core s')).

(** Two objects [a] and [b] that hold the identifier of [oa] on the heap
    [h0]: an enumerated object other than the two, with another identifier. *)
Definition other (h0 : gmap nat UObject) (a b : ptr) (oa : UObject) (m : ptr) : Prop :=
  m ≠ a ∧ m ≠ b ∧ ∀ o, h0 !! m = Some o → LightingGuid o ≠ LightingGuid oa.

(** Neither seen: the shared identifier is not in the registry. *)
Definition before_both (oa : UObject) (c : Core) : Prop :=
  registry c !! LightingGuid oa = None.

(** The first seen: it is entered under the shared identifier. *)
Definition between (a : ptr) (oa : UObject) (c : Core) : Prop :=
  registry c !! LightingGuid oa = Some a ∧ heap c !! a = Some oa.

(** Both seen: each holds an identifier of its own from the generator. *)
Definition after_both (n0 : nat) (a b : ptr) (c : Core) : Prop :=
  ∃ i j oa' ob', i ≠ j ∧ n0 ≤ i < drawn c ∧ n0 ≤ j < drawn c ∧
    heap c !! a = Some oa' ∧ heap c !! b = Some ob' ∧
    LightingGuid oa' = NewGuid i ∧ LightingGuid ob' = NewGuid j.

(** ** What a run writes: identifiers, marks, lines of the log *)

Global Instance ELogVerbosity_eq_dec : EqDecision ELogVerbosity.
Proof. solve_decision. Defined.

(** The number of lines of a verbosity among [lines]. *)
Definition count_lines (v : ELogVerbosity) (lines : list (ELogVerbosity * string)) : nat :=
  length (filter (λ l, l.1 = v) lines).

(** One write of a pass, on the host and the flags: a new identifier for an
    object of the project, reported in [bMadeChanges] or, when [unreported]
    allows it, not; or a warning. *)
Inductive Event (unreported : bool) : World * Flags → World * Flags → Prop :=
| event_fixed w f p o line :
    objects w !! p = Some o → IsProjectContent o = true →
    Event unreported (w, f) (fixed p o line w, set_bMadeChanges f)
| event_fixed_unreported w f p o line :
    unreported = true →
    objects w !! p = Some o → IsProjectContent o = true →
    Event unreported (w, f) (fixed p o line w, f)
| event_warned w f line :
    Event unreported (w, f) (UE_LOG Warning line w, set_bHasWarnings f).

(** The object [o'] is [o], or [o] with an identifier drawn between the
    [n]-th and the [n']-th call of the generator and the mark of [Modify]. *)
Definition same_or_renewed (n n' : nat) (o o' : UObject) : Prop :=
  o' = o ∨ (IsProjectContent o = true ∧ ∃ i, n ≤ i < n' ∧ o' = renew (NewGuid i) o).

(** What a run accounts for: the log is extended, one [Display] line for each
    identifier drawn from the generator, and every object is the one it was
    or an object of the project with one of the identifiers drawn. *)
Definition accounted (w w' : World) : Prop :=
  ∃ lines, LogTemp w' = (LogTemp w ++ lines)%list ∧
    NewGuidCalls w' = NewGuidCalls w + count_lines Display lines ∧
    ∀ p, option_Forall2 (same_or_renewed (NewGuidCalls w) (NewGuidCalls w'))
           (objects w !! p) (objects w' !! p).

(** An object without a valid identifier that the passes may repair, and one
    that they may not. *)
Definition repairable (w : World) (p : ptr) : bool :=
  match objects w !! p with
  | Some o => negb (IsValid (LightingGuid o)) && IsProjectContent o
  | None => false
  end.

Definition unrepairable (w : World) (p : ptr) : bool :=
  match objects w !! p with
  | Some o => negb (IsValid (LightingGuid o)) && negb (IsProjectContent o)
  | None => false
  end.

(** Every entry of the registry points into [P]; the objects outside [P] are
    the same in [w'] as in [w]. *)
Definition within (P : ptr → Prop) (s : Scan) : Prop :=
  ∀ k r, Guids s !! k = Some r → P r.

Definition untouched (P : ptr → Prop) (w w' : World) : Prop :=
  ∀ p, ¬ P p → objects w' !! p = objects w !! p.

End GuidFixer.

(** * Sample hosts *)

(** A generator that counts up from 1000. *)
Definition sample_generator : GuidGenerator := λ n, (1000 + N.of_nat n)%N.

Definition object (path : string) (g : N) : UObject :=
  {| PathName := path; LightingGuid := g; Dirty := false |}.

Definition host (l : list (nat * UObject)) : World :=
  {| objects := list_to_map l; NewGuidCalls := 0; LogTemp := [] |}.

(** What a test reads off a run: the identifiers of the objects asked for
    and the text of the dialog. *)
Definition outcome (ps : list nat) (r : option (World * string)) :
    option (list (option N) * string) :=
  (λ x, (GetLightingGuid x.1 <$> ps, x.2)) <$> r.

(** A material of the project and one of a plugin with the same identifier. *)
Definition project_and_plugin : World :=
  host [(1, object "/Game/A" 7); (2, object "/Plugin/B" 7)].

(** Two materials of a plugin with the same identifier. *)
Definition two_of_plugin : World :=
  host [(1, object "/Plugin/A" 7); (2, object "/Plugin/B" 7)].

(** Two materials of the project with the same identifier. *)
Definition two_of_project : World :=
  host [(1, object "/Game/A" 7); (2, object "/Game/B" 7)].

(** Two materials of the project around one of a plugin, same identifier. *)
Definition plugin_between : World :=
  host [(1, object "/Game/A" 7); (2, object "/Plugin/B" 7); (3, object "/Game/C" 7)].

(** Three materials of the project with the same identifier. *)
Definition three_of_project : World :=
  host [(1, object "/Game/A" 7); (2, object "/Game/B" 7); (3, object "/Game/C" 7)].

(** Three objects with valid identifiers, no two the same. *)
Definition all_different : World :=
  host [(1, object "/Game/A" 7); (2, object "/Plugin/B" 8); (3, object "/Engine/C" 9)].

(** A texture of the project without identifier. *)
Definition unset_texture : World := host [(1, object "/Game/T" 0)].

(** Textures with valid identifiers, two of them the same. *)
Definition valid_textures : World :=
  host [(1, object "/Game/T" 7); (2, object "/Game/U" 7); (3, object "/Engine/V" 9)].

(** Two materials of the project with the same identifier and a third with
    another one. *)
Definition pair_and_other : World :=
  host [(1, object "/Game/A" 7); (2, object "/Game/B" 7); (3, object "/Game/C" 9)].

(** Textures without identifier, of the project and of a plugin, beside
    textures with one, of the project and of the engine. *)
Definition mixed_textures : World :=
  host [(1, object "/Game/T" 0); (2, object "/Plugin/U" 0);
        (3, object "/Game/V" 7); (4, object "/Engine/W" 7)].

(** Textures of the project: one without identifier, two that share one. *)
Definition project_textures : World :=
  host [(1, object "/Game/T" 0); (2, object "/Game/U" 7); (3, object "/Game/V" 7)].


(** * Properties *)

Section Properties.

Context {generator : GuidGenerator}.

(** ** The statements on live and on dangling pointers *)

Lemma GetLightingGuid_live w p o :
  objects w !! p = Some o → GetLightingGuid w p = Some (LightingGuid o).
Proof. unfold GetLightingGuid. by intros ->. Qed.

Lemma GetLightingGuid_dead w p :
  objects w !! p = None → GetLightingGuid w p = None.
Proof. unfold GetLightingGuid. by intros ->. Qed.

Lemma GetPathName_live w p o :
  objects w !! p = Some o → GetPathName w p = Some (PathName o).
Proof. unfold GetPathName. by intros ->. Qed.

Lemma GetPathName_dead w p :
  objects w !! p = None → GetPathName w p = None.
Proof. unfold GetPathName. by intros ->. Qed.

Lemma ShouldModify_live w p o :
  objects w !! p = Some o → ShouldModify w p = Some (IsProjectContent o).
Proof. unfold ShouldModify, GetPathName. by intros ->. Qed.

Lemma ShouldModify_dead w p :
  objects w !! p = None → ShouldModify w p = None.
Proof. unfold ShouldModify, GetPathName. by intros ->. Qed.

Lemma assign_live {A} w p o (K : World → option A) :
  objects w !! p = Some o →
  (w1 ← SetLightingGuid p w; w2 ← Modify p w1; K w2) = K (assigned p o w).
Proof.
  intros Ho. unfold SetLightingGuid, Modify. rewrite Ho. simpl.
  rewrite lookup_insert_eq. simpl. by rewrite insert_insert_eq.
Qed.

Lemma assigned_self p o w :
  objects (assigned p o w) !! p = Some (renew (NewGuid (NewGuidCalls w)) o).
Proof. apply lookup_insert_eq. Qed.

(** Rewrites the next statement on a pointer whose object is known. *)
Ltac live H :=
  first
    [ rewrite (GetLightingGuid_live _ _ _ H)
    | rewrite (ShouldModify_live _ _ _ H)
    | rewrite (GetPathName_live _ _ _ H)
    | rewrite (assign_live _ _ _ _ H) ];
  simpl.

Ltac dead H :=
  first
    [ rewrite (GetLightingGuid_dead _ _ H)
    | rewrite (ShouldModify_dead _ _ H)
    | rewrite (GetPathName_dead _ _ H) ];
  simpl.

Ltac assigned_live :=
  rewrite ?(GetLightingGuid_live _ _ _ (assigned_self _ _ _)),
          ?(GetPathName_live _ _ _ (assigned_self _ _ _));
  simpl.

(** ** Each piece of the bodies, as a function of the objects it reads *)

Ltac invalid_tac m s :=
  destruct (objects (world s) !! m) as [om|] eqn:Hm; [|by dead Hm];
  live Hm; destruct (IsValid (LightingGuid om)); simpl; [done|];
  try live Hm; try destruct (IsProjectContent om);
  repeat live Hm; assigned_live; done.

Lemma FixMaterialGuids_invalid_eq m s :
  FixMaterialGuids_invalid m s =
  om ← objects (world s) !! m;
  Some (if IsValid (LightingGuid om) then Proceed s
        else if IsProjectContent om
        then Proceed (fix_invalid m om ": Material has had its GUID updated." s)
        else Continue (warned (PathName om +:+ ": Material has invalid GUID but is specified not to be modified. @see FGuidFixerModule::ShouldModify()") s)).
Proof. unfold FixMaterialGuids_invalid. invalid_tac m s. Qed.

Lemma FixTextureGuids_invalid_eq m s :
  FixTextureGuids_invalid m s =
  om ← objects (world s) !! m;
  Some (if IsValid (LightingGuid om) then Proceed s
        else Continue (warned (PathName om +:+ ": Texture has invalid GUID but is not modified. Fix this by running Tools -> GUID Fixer -> Fix Empty Texture Guids") s)).
Proof. unfold FixTextureGuids_invalid. invalid_tac m s. Qed.

Ltac incumbent_tac m r s :=
  unfold incumbent_of;
  destruct (objects (world s) !! r) as [o|] eqn:Hr; [|by dead Hr];
  live Hr;
  destruct (objects (world s) !! m) as [om|] eqn:Hm; [|by dead Hm];
  live Hm;
  case_bool_decide; [|done]; simpl;
  live Hr; destruct (IsProjectContent o); [|done];
  live Hr; assigned_live; done.

Lemma FixMaterialGuids_incumbent_eq m r g s :
  FixMaterialGuids_incumbent m r g s =
  incumbent_of ": Material has had its GUID updated." m r g s.
Proof. unfold FixMaterialGuids_incumbent. incumbent_tac m r s. Qed.

Lemma FixTextureGuids_incumbent_eq m r g s :
  FixTextureGuids_incumbent m r g s =
  incumbent_of ": Texture has had its GUID updated." m r g s.
Proof. unfold FixTextureGuids_incumbent. incumbent_tac m r s. Qed.

Ltac current_tac m x :=
  unfold current_of;
  destruct (objects (world x.1) !! m) as [om|] eqn:Hm; [|by dead Hm];
  live Hm; destruct (IsProjectContent om); [|done];
  live Hm; assigned_live; done.

Lemma FixMaterialGuids_current_eq m x :
  FixMaterialGuids_current m x =
  current_of ": Material has had its GUID updated." m x.
Proof. unfold FixMaterialGuids_current. current_tac m x. Qed.

Lemma FixTextureGuids_current_eq m x :
  FixTextureGuids_current m x =
  current_of ": Texture has had its GUID updated." m x.
Proof. unfold FixTextureGuids_current. current_tac m x. Qed.

Ltac unresolved_tac m r x :=
  unfold unresolved_of;
  destruct x.2; simpl; [done|];
  destruct (objects (world x.1) !! m) as [om|] eqn:Hm; [|by dead Hm];
  live Hm;
  destruct (objects (world x.1) !! r) as [o|] eqn:Hr; [|by dead Hr];
  live Hr; done.

Lemma FixMaterialGuids_unresolved_eq m r x :
  FixMaterialGuids_unresolved m r x =
  unresolved_of ": Material has conflicting GUID with "
    " but both are specified not to be modified. @see FGuidFixerModule::ShouldModify()" m r x.
Proof. unfold FixMaterialGuids_unresolved. unresolved_tac m r x. Qed.

Lemma FixTextureGuids_unresolved_eq m r x :
  FixTextureGuids_unresolved m r x =
  unresolved_of ": Texture has conflicting GUID with "
    " but both are specified not to be modified. @see FGuidFixerModule::ShouldModify()" m r x.
Proof. unfold FixTextureGuids_unresolved. unresolved_tac m r x. Qed.

Lemma FixMaterialGuids_lookup_eq m s :
  FixMaterialGuids_lookup m s =
  lookup_of ": Material has had its GUID updated." ": Material has conflicting GUID with "
    " but both are specified not to be modified. @see FGuidFixerModule::ShouldModify()" m s.
Proof.
  unfold FixMaterialGuids_lookup, lookup_of.
  destruct (objects (world s) !! m) as [om|] eqn:Hm; [|by dead Hm].
  live Hm. destruct (Guids s !! LightingGuid om) as [r|]; [|done].
  rewrite FixMaterialGuids_incumbent_eq.
  destruct (incumbent_of _ m r _ s) as [x|]; [simpl|done].
  rewrite FixMaterialGuids_current_eq.
  destruct (current_of _ m x) as [y|]; [simpl|done].
  apply FixMaterialGuids_unresolved_eq.
Qed.

Lemma FixTextureGuids_lookup_eq m s :
  FixTextureGuids_lookup m s =
  lookup_of ": Texture has had its GUID updated." ": Texture has conflicting GUID with "
    " but both are specified not to be modified. @see FGuidFixerModule::ShouldModify()" m s.
Proof.
  unfold FixTextureGuids_lookup, lookup_of.
  destruct (objects (world s) !! m) as [om|] eqn:Hm; [|by dead Hm].
  live Hm. destruct (Guids s !! LightingGuid om) as [r|]; [|done].
  rewrite FixTextureGuids_incumbent_eq.
  destruct (incumbent_of _ m r _ s) as [x|]; [simpl|done].
  rewrite FixTextureGuids_current_eq.
  destruct (current_of _ m x) as [y|]; [simpl|done].
  apply FixTextureGuids_unresolved_eq.
Qed.

Lemma FixMaterialGuids_body_eq m s :
  FixMaterialGuids_body m s =
  om ← objects (world s) !! m;
  if IsValid (LightingGuid om) then FixMaterialGuids_lookup m s
  else if IsProjectContent om
  then FixMaterialGuids_lookup m (fix_invalid m om ": Material has had its GUID updated." s)
  else Some (warned (PathName om +:+ ": Material has invalid GUID but is specified not to be modified. @see FGuidFixerModule::ShouldModify()") s).
Proof.
  unfold FixMaterialGuids_body. rewrite FixMaterialGuids_invalid_eq.
  destruct (objects (world s) !! m) as [om|]; [simpl|done].
  destruct (IsValid _); [done|]. by destruct (IsProjectContent om).
Qed.

Lemma FixTextureGuids_body_eq m s :
  FixTextureGuids_body m s =
  om ← objects (world s) !! m;
  if IsValid (LightingGuid om) then FixTextureGuids_lookup m s
  else Some (warned (PathName om +:+ ": Texture has invalid GUID but is not modified. Fix this by running Tools -> GUID Fixer -> Fix Empty Texture Guids") s).
Proof.
  unfold FixTextureGuids_body. rewrite FixTextureGuids_invalid_eq.
  destruct (objects (world s) !! m) as [om|]; [simpl|done].
  by destruct (IsValid _).
Qed.

Lemma FixEmptyTextureGuids_body_eq m s :
  FixEmptyTextureGuids_body m s =
  om ← objects s.1 !! m;
  Some (if IsValid (LightingGuid om) then s
        else if IsProjectContent om
        then (fixed m om ": Texture has had its GUID updated." s.1, set_bMadeChanges s.2)
        else (UE_LOG Warning (PathName om +:+ ": Texture has invalid GUID but is specified not to be modified. @see FGuidFixerModule::ShouldModify()") s.1, set_bHasWarnings s.2)).
Proof.
  unfold FixEmptyTextureGuids_body.
  destruct (objects s.1 !! m) as [om|] eqn:Hm; [|by dead Hm].
  live Hm. destruct (IsValid (LightingGuid om)); simpl; [done|].
  live Hm. destruct (IsProjectContent om); repeat live Hm; assigned_live; done.
Qed.

(** ** What a pass leaves as it is *)

Section Frame.

(** A relation between the host before and after that holds when the objects
    are the same, composes, and holds across the assignment of a new
    identifier to an object of the project. *)
Context (R : World → World → Prop).
Context (R_same : ∀ w w', objects w' = objects w → R w w').
Context (R_trans : ∀ w1 w2 w3, R w1 w2 → R w2 w3 → R w1 w3).
Context (R_fixed : ∀ p o line w,
  objects w !! p = Some o → IsProjectContent o = true → R w (fixed p o line w)).

Lemma frame_incumbent line m r g s x :
  incumbent_of line m r g s = Some x → R (world s) (world x.1).
Proof.
  unfold incumbent_of. intros H.
  destruct (objects (world s) !! r) as [o|] eqn:Hr; simplify_eq/=.
  destruct (objects (world s) !! m) as [om|] eqn:Hm; simplify_eq/=.
  case_bool_decide; simpl; [|by apply R_same].
  destruct (IsProjectContent o) eqn:Ho; simpl; [|by apply R_same].
  by apply R_fixed.
Qed.

Lemma frame_current line m x y :
  current_of line m x = Some y → R (world x.1) (world y.1).
Proof.
  unfold current_of. intros H.
  destruct (objects (world x.1) !! m) as [om|] eqn:Hm; simplify_eq/=.
  destruct (IsProjectContent om) eqn:Ho; simpl; [|by apply R_same].
  by apply R_fixed.
Qed.

Lemma frame_unresolved mid tail m r x s' :
  unresolved_of mid tail m r x = Some s' → R (world x.1) (world s').
Proof.
  unfold unresolved_of. intros H. destruct x.2; simplify_eq/=; [by apply R_same|].
  destruct (objects (world x.1) !! m); simplify_eq/=.
  destruct (objects (world x.1) !! r); simplify_eq/=. by apply R_same.
Qed.

Lemma frame_lookup line mid tail m s s' :
  lookup_of line mid tail m s = Some s' → R (world s) (world s').
Proof.
  unfold lookup_of. intros H.
  destruct (objects (world s) !! m) as [om|]; simplify_eq/=.
  destruct (Guids s !! LightingGuid om) as [r|]; simplify_eq/=; [|by apply R_same].
  destruct (incumbent_of _ _ _ _ _) as [x|] eqn:Hx; simplify_eq/=.
  destruct (current_of _ _ _) as [y|] eqn:Hy; simplify_eq/=.
  eapply R_trans; [by eapply frame_incumbent|].
  eapply R_trans; [by eapply frame_current|].
  by eapply frame_unresolved.
Qed.

Lemma frame_FixMaterialGuids_body m s s' :
  FixMaterialGuids_body m s = Some s' → R (world s) (world s').
Proof.
  rewrite FixMaterialGuids_body_eq. intros H.
  destruct (objects (world s) !! m) as [om|] eqn:Hm; simplify_eq/=.
  rewrite !FixMaterialGuids_lookup_eq in H.
  destruct (IsValid _); [by eapply frame_lookup|].
  destruct (IsProjectContent om) eqn:Ho; simplify_eq/=; [|by apply R_same].
  eapply R_trans; [|by eapply frame_lookup]. by apply R_fixed.
Qed.

Lemma frame_FixTextureGuids_body m s s' :
  FixTextureGuids_body m s = Some s' → R (world s) (world s').
Proof.
  rewrite FixTextureGuids_body_eq. intros H.
  destruct (objects (world s) !! m) as [om|] eqn:Hm; simplify_eq/=.
  rewrite !FixTextureGuids_lookup_eq in H.
  destruct (IsValid _); [by eapply frame_lookup|].
  simplify_eq/=. by apply R_same.
Qed.

Lemma frame_FixEmptyTextureGuids_body m s s' :
  FixEmptyTextureGuids_body m s = Some s' → R s.1 s'.1.
Proof.
  rewrite FixEmptyTextureGuids_body_eq. intros H.
  destruct (objects s.1 !! m) as [om|] eqn:Hm; simplify_eq/=.
  destruct (IsValid _); [by apply R_same|].
  destruct (IsProjectContent om) eqn:Ho; simpl; [|by apply R_same].
  by apply R_fixed.
Qed.

Lemma frame_TObjectIterator {S} (body : nat → S → option S) (host : S → World) it :
  (∀ p s s', body p s = Some s' → R (host s) (host s')) →
  ∀ s s', TObjectIterator body it s = Some s' → R (host s) (host s').
Proof.
  intros Hbody. induction it as [|p it IH]; intros s s' H; simplify_eq/=.
  - by apply R_same.
  - destruct (body p s) as [s1|] eqn:H1; simplify_eq/=.
    eapply R_trans; eauto.
Qed.

Lemma frame_passes it w w' text :
  FixMaterialGuids it w = Some (w', text) ∨
  FixTextureGuids it w = Some (w', text) ∨
  FixEmptyTextureGuids it w = Some (w', text) →
  R w w'.
Proof.
  unfold FixMaterialGuids, FixTextureGuids, FixEmptyTextureGuids.
  intros [H|[H|H]];
    destruct (TObjectIterator _ _ _) as [s|] eqn:Hs; simplify_eq/=.
  - apply (frame_TObjectIterator _ world _ frame_FixMaterialGuids_body _ _ Hs).
  - apply (frame_TObjectIterator _ world _ frame_FixTextureGuids_body _ _ Hs).
  - apply (frame_TObjectIterator _ fst _ frame_FixEmptyTextureGuids_body _ _ Hs).
Qed.

End Frame.

Lemma keeps_passes it w w' text :
  FixMaterialGuids it w = Some (w', text) ∨
  FixTextureGuids it w = Some (w', text) ∨
  FixEmptyTextureGuids it w = Some (w', text) →
  keeps w w'.
Proof.
  apply (frame_passes keeps).
  - intros w1 w2 E q o. by rewrite E.
  - intros w1 w2 w3 H1 H2 q o Hq Ho. eauto.
  - intros p o line w1 Hp Ho q o' Hq Ho'. simpl. rewrite lookup_insert_ne; [done|].
    intros <-. congruence.
Qed.

Lemma same_paths_passes it w w' text :
  FixMaterialGuids it w = Some (w', text) ∨
  FixTextureGuids it w = Some (w', text) ∨
  FixEmptyTextureGuids it w = Some (w', text) →
  same_paths w w'.
Proof.
  apply (frame_passes same_paths).
  - intros w1 w2 E q. unfold GetPathName. by rewrite E.
  - intros w1 w2 w3 H1 H2 q. by rewrite H2.
  - intros p o line w1 Hp Ho q. unfold GetPathName. simpl.
    destruct (decide (p = q)) as [<-|Hpq].
    + by rewrite lookup_insert_eq, Hp.
    + by rewrite lookup_insert_ne.
Qed.

Lemma ShouldModify_false w p :
  ShouldModify w p = Some false →
  ∃ o, objects w !! p = Some o ∧ IsProjectContent o = false.
Proof.
  unfold ShouldModify, GetPathName. destruct (objects w !! p) as [o|]; [|done].
  simpl. intros [= H]. eauto.
Qed.

(** C1. An object on which [ShouldModify] answers no (its path does not start
    with "/Game/") is the same object, identifier included, after any run of
    any of the three passes, whatever the enumeration, the other objects and
    the generator are. *)
Theorem foreign_objects_never_written it w p :
  ShouldModify w p = Some false →
  (∀ w' text, FixMaterialGuids it w = Some (w', text) →
     objects w' !! p = objects w !! p) ∧
  (∀ w' text, FixTextureGuids it w = Some (w', text) →
     objects w' !! p = objects w !! p) ∧
  (∀ w' text, FixEmptyTextureGuids it w = Some (w', text) →
     objects w' !! p = objects w !! p).
Proof.
  intros (o & Hp & Ho)%ShouldModify_false. rewrite Hp.
  split_and!; intros w' text H; by apply (keeps_passes it w w' text); auto.
Qed.

(** The passes create and destroy no object and change no path: every
    pointer has the same path name, or none, before and after a run. *)
Theorem passes_keep_paths it w :
  (∀ w' text, FixMaterialGuids it w = Some (w', text) →
     ∀ p, GetPathName w' p = GetPathName w p) ∧
  (∀ w' text, FixTextureGuids it w = Some (w', text) →
     ∀ p, GetPathName w' p = GetPathName w p) ∧
  (∀ w' text, FixEmptyTextureGuids it w = Some (w', text) →
     ∀ p, GetPathName w' p = GetPathName w p).
Proof.
  split_and!; intros w' text H; by apply (same_paths_passes it w w' text); auto.
Qed.

(** ** The invariant of a collision pass *)

Lemma Inv_start strict w : Fresh w → Inv strict (objects w) (NewGuidCalls w) [] (core (start w)).
Proof.
  intros [Hinj Hnew]. split; simpl; try done.
  intros p o Hp. by apply not_elem_of_nil in Hp.
Qed.

Section Steps.

Context (strict : bool) (h0 : gmap nat UObject) (n0 : nat).

(** The current object keeps its identifier and needs no entry. *)
Lemma Inv_pass seen c m om :
  Inv strict h0 n0 seen c → heap c !! m = Some om →
  IsProjectContent om = false ∨ (strict = true ∧ IsValid (LightingGuid om) = false) →
  Inv strict h0 n0 (seen ++ [m]) c.
Proof.
  intros I Hm Hom. split; try by destruct I.
  - intros p Hp. apply (inv_later _ _ _ _ _ I). by apply not_elem_of_app in Hp as [? _].
  - intros k r Hk. destruct (inv_held _ _ _ _ _ I k r Hk). split; [apply elem_of_app; by left|done].
  - intros p o [Hp| ->%list_elem_of_singleton]%elem_of_app Ho Hown Hval.
    + by apply (inv_entered _ _ _ _ _ I).
    + simplify_eq. destruct Hom as [?|[? ?]]; [congruence|]. rewrite Hval in *; done.
Qed.

(** The current object is entered under the identifier it holds. *)
Lemma Inv_enter seen c m om :
  Inv strict h0 n0 seen c → heap c !! m = Some om →
  registry c !! LightingGuid om = None →
  Inv strict h0 n0 (seen ++ [m]) (enter (LightingGuid om) m c).
Proof.
  intros I Hm Hnone. split; simpl; try by destruct I.
  - intros p Hp. apply (inv_later _ _ _ _ _ I). by apply not_elem_of_app in Hp as [? _].
  - intros k r. destruct (decide (k = LightingGuid om)) as [->|Hk].
    + rewrite lookup_insert_eq. intros [= <-]. split; [apply elem_of_app; right; by apply list_elem_of_singleton|]. by rewrite Hm.
    + rewrite lookup_insert_ne by done. intros Hr.
      destruct (inv_held _ _ _ _ _ I k r Hr). split; [apply elem_of_app; by left|done].
  - intros p o [Hp| ->%list_elem_of_singleton]%elem_of_app Ho Hown Hval.
    + pose proof (inv_entered _ _ _ _ _ I p o Hp Ho Hown Hval) as Hreg.
      rewrite lookup_insert_ne; [done|]. intros E. rewrite <-E in Hreg. congruence.
    + simplify_eq. apply lookup_insert_eq.
Qed.

(** The current object draws a new identifier and is entered under it. *)
Lemma Inv_draw_current seen c m om :
  Inv strict h0 n0 seen c → m ∉ seen → heap c !! m = Some om →
  Inv strict h0 n0 (seen ++ [m]) (draw m om c).
Proof.
  intros I Hm Hom. split; simpl; try by destruct I.
  - intros p. destruct (decide (m = p)) as [<-|Hp].
    + rewrite lookup_insert_eq, <-(inv_paths _ _ _ _ _ I), Hom. done.
    + rewrite lookup_insert_ne by done. apply (inv_paths _ _ _ _ _ I).
  - intros p Hp. apply not_elem_of_app in Hp as [Hp Hpm].
    rewrite lookup_insert_ne by (intros <-; apply Hpm; by apply list_elem_of_singleton).
    by apply (inv_later _ _ _ _ _ I).
  - intros k r. destruct (decide (k = NewGuid (drawn c))) as [->|Hk].
    + rewrite lookup_insert_eq. intros [= <-].
      split; [apply elem_of_app; right; by apply list_elem_of_singleton|].
      by rewrite lookup_insert_eq.
    + rewrite lookup_insert_ne by done. intros Hr.
      destruct (inv_held _ _ _ _ _ I k r Hr) as [Hseen Hg]. split; [apply elem_of_app; by left|].
      rewrite lookup_insert_ne; [done|]. intros <-. done.
  - intros p o [Hp| ->%list_elem_of_singleton]%elem_of_app.
    + rewrite lookup_insert_ne by (intros <-; done). intros Ho Hown Hval.
      rewrite lookup_insert_ne.
      * by apply (inv_entered _ _ _ _ _ I).
      * intros E. by apply (inv_fresh _ _ _ _ _ I (drawn c) p o).
    + rewrite lookup_insert_eq. intros [= <-] _ _. simpl. apply lookup_insert_eq.
  - intros i p o Hi. destruct (decide (m = p)) as [<-|Hp].
    + rewrite lookup_insert_eq. intros [= <-]. simpl. intros E.
      pose proof (inv_drawn _ _ _ _ _ I).
      apply (inv_inj _ _ _ _ _ I) in E; lia.
    + rewrite lookup_insert_ne by done. apply (inv_fresh _ _ _ _ _ I). lia.
  - pose proof (inv_drawn _ _ _ _ _ I). lia.
Qed.

(** The object found in the registry draws a new identifier and moves to it. *)
Lemma Inv_draw_incumbent seen c g r o :
  Inv strict h0 n0 seen c → registry c !! g = Some r → heap c !! r = Some o →
  Inv strict h0 n0 seen (draw r o (forget g c)).
Proof.
  intros I Hr Ho.
  destruct (inv_held _ _ _ _ _ I g r Hr) as [Hseen Hg].
  rewrite Ho in Hg. simpl in Hg. injection Hg as Hg.
  split; simpl; try by destruct I.
  - intros p. destruct (decide (r = p)) as [<-|Hp].
    + rewrite lookup_insert_eq, <-(inv_paths _ _ _ _ _ I), Ho. done.
    + rewrite lookup_insert_ne by done. apply (inv_paths _ _ _ _ _ I).
  - intros p Hp. rewrite lookup_insert_ne by (intros <-; done).
    by apply (inv_later _ _ _ _ _ I).
  - intros k r'. destruct (decide (k = NewGuid (drawn c))) as [->|Hk].
    + rewrite lookup_insert_eq. intros [= <-]. split; [done|].
      by rewrite lookup_insert_eq.
    + rewrite lookup_insert_ne by done.
      destruct (decide (k = g)) as [->|Hkg]; [by rewrite lookup_delete_eq|].
      rewrite lookup_delete_ne by done. intros Hr'.
      destruct (inv_held _ _ _ _ _ I k r' Hr') as [Hseen' Hg']. split; [done|].
      rewrite lookup_insert_ne; [done|]. intros <-.
      rewrite Ho in Hg'. simpl in Hg'. congruence.
  - intros p o' Hp. destruct (decide (r = p)) as [<-|Hrp].
    + rewrite lookup_insert_eq. intros [= <-] _ _. simpl. apply lookup_insert_eq.
    + rewrite lookup_insert_ne by done. intros Ho' Hown Hval.
      pose proof (inv_entered _ _ _ _ _ I p o' Hp Ho' Hown Hval) as Hreg.
      rewrite lookup_insert_ne.
      * rewrite lookup_delete_ne; [done|]. intros E. rewrite <-E in Hreg. congruence.
      * intros E. by apply (inv_fresh _ _ _ _ _ I (drawn c) p o').
  - intros i p o' Hi. destruct (decide (r = p)) as [<-|Hp].
    + rewrite lookup_insert_eq. intros [= <-]. simpl. intros E.
      pose proof (inv_drawn _ _ _ _ _ I).
      apply (inv_inj _ _ _ _ _ I) in E; lia.
    + rewrite lookup_insert_ne by done. apply (inv_fresh _ _ _ _ _ I). lia.
  - pose proof (inv_drawn _ _ _ _ _ I). lia.
Qed.

Lemma Step_Inv seen c c' m :
  Inv strict h0 n0 seen c → m ∉ seen → Step strict m c c' →
  Inv strict h0 n0 (seen ++ [m]) c'.
Proof.
  intros I Hm [om Hom Hinv Hwhy ->|om Hs Hom Hinv Hown ->|om Hom Hval Hnone ->
              |om r o Hom Hval Hr Ho Hrm Hg ->].
  - eapply Inv_pass; [done..|]. destruct Hwhy; auto.
  - by apply Inv_draw_current.
  - by apply Inv_enter.
  - simpl.
    assert (Inv strict h0 n0 seen
      (if IsProjectContent o then draw r o (forget (LightingGuid om) c) else c)
      ∧ heap (if IsProjectContent o then draw r o (forget (LightingGuid om) c) else c) !! m
        = Some om) as [I1 Hom1].
    { destruct (IsProjectContent o); [|done]. split.
      - by apply Inv_draw_incumbent.
      - simpl. by rewrite lookup_insert_ne. }
    destruct (IsProjectContent om) eqn:Hown.
    + by apply Inv_draw_current.
    + eapply Inv_pass; eauto.
Qed.

End Steps.

(** ** One iteration of a collision pass is a step *)

Lemma lookup_of_Step strict h0 n0 seen line mid tail m om s :
  Inv strict h0 n0 seen (core s) → m ∉ seen →
  objects (world s) !! m = Some om → IsValid (LightingGuid om) = true →
  ∃ s', lookup_of line mid tail m s = Some s' ∧ Step strict m (core s) (core s').
Proof.
  intros I Hm Hom Hval. unfold lookup_of. rewrite Hom. simpl.
  destruct (Guids s !! LightingGuid om) as [r|] eqn:Hr.
  - destruct (inv_held _ _ _ _ _ I _ _ Hr) as [Hseen Hg]. simpl in Hg.
    destruct (objects (world s) !! r) as [o|] eqn:Ho; [|done].
    injection Hg as Hg.
    assert (r ≠ m) as Hrm by (intros ->; done).
    unfold incumbent_of. rewrite Ho, Hom. simpl.
    rewrite bool_decide_eq_true_2 by done. simpl.
    unfold current_of, unresolved_of.
    destruct (IsProjectContent o) eqn:Hown; simpl.
    + rewrite lookup_insert_ne, Hom by done. simpl.
      destruct (IsProjectContent om) eqn:Hown'; simpl.
      * eexists. split; [done|].
        eapply step_hit; [done..|]. by rewrite Hown, Hown'.
      * eexists. split; [done|].
        eapply step_hit; [done..|]. by rewrite Hown, Hown'.
    + rewrite Hom. simpl.
      destruct (IsProjectContent om) eqn:Hown'; simpl.
      * eexists. split; [done|].
        eapply step_hit; [done..|]. by rewrite Hown, Hown'.
      * rewrite Hom, Ho. simpl. eexists. split; [done|].
        eapply step_hit; [done..|]. by rewrite Hown, Hown'.
  - eexists. split; [done|]. by eapply step_enter.
Qed.

Lemma FixMaterialGuids_body_Step h0 n0 seen m s :
  Inv false h0 n0 seen (core s) → m ∉ seen → is_Some (objects (world s) !! m) →
  ∃ s', FixMaterialGuids_body m s = Some s' ∧ Step false m (core s) (core s').
Proof.
  intros I Hm [om Hom]. rewrite FixMaterialGuids_body_eq, Hom. simpl.
  rewrite !FixMaterialGuids_lookup_eq.
  destruct (IsValid (LightingGuid om)) eqn:Hval.
  - by eapply lookup_of_Step.
  - destruct (IsProjectContent om) eqn:Hown.
    + unfold lookup_of. simpl. rewrite lookup_insert_eq. simpl.
      destruct (Guids s !! NewGuid (NewGuidCalls (world s))) as [r|] eqn:Hr.
      * destruct (inv_held _ _ _ _ _ I _ _ Hr) as [_ Hg]. simpl in Hg.
        destruct (objects (world s) !! r) as [o|] eqn:Ho; [|done].
        injection Hg as Hg.
        by destruct (inv_fresh _ _ _ _ _ I (NewGuidCalls (world s)) r o).
      * eexists. split; [done|]. by eapply step_repair.
    + eexists. split; [done|]. eapply step_skip; eauto.
Qed.

Lemma FixTextureGuids_body_Step h0 n0 seen m s :
  Inv true h0 n0 seen (core s) → m ∉ seen → is_Some (objects (world s) !! m) →
  ∃ s', FixTextureGuids_body m s = Some s' ∧ Step true m (core s) (core s').
Proof.
  intros I Hm [om Hom]. rewrite FixTextureGuids_body_eq, Hom. simpl.
  rewrite !FixTextureGuids_lookup_eq.
  destruct (IsValid (LightingGuid om)) eqn:Hval.
  - by eapply lookup_of_Step.
  - eexists. split; [done|]. eapply step_skip; eauto.
Qed.

Lemma FixMaterialGuids_body_steps : steps false FixMaterialGuids_body.
Proof.
  split.
  - intros m s Hm. by rewrite FixMaterialGuids_body_eq, Hm.
  - intros. by eapply FixMaterialGuids_body_Step.
Qed.

Lemma FixTextureGuids_body_steps : steps true FixTextureGuids_body.
Proof.
  split.
  - intros m s Hm. by rewrite FixTextureGuids_body_eq, Hm.
  - intros. by eapply FixTextureGuids_body_Step.
Qed.

Lemma steps_inv strict body h0 n0 seen m s s' :
  steps strict body → Inv strict h0 n0 seen (core s) → m ∉ seen →
  body m s = Some s' →
  Step strict m (core s) (core s') ∧ Inv strict h0 n0 (seen ++ [m]) (core s').
Proof.
  intros [Hdead Hstep] I Hm Hs.
  destruct (objects (world s) !! m) as [om|] eqn:Hom.
  - destruct (Hstep h0 n0 seen m s I Hm) as (s'' & Hs'' & St); [by eexists|].
    simplify_eq. split; [done|]. by eapply Step_Inv.
  - rewrite Hdead in Hs; done.
Qed.

(** The invariant along a scan: after any part of the enumeration. *)
Lemma scan_inv strict body h0 n0 :
  steps strict body →
  ∀ it seen s s', NoDup (seen ++ it) → Inv strict h0 n0 seen (core s) →
    TObjectIterator body it s = Some s' →
    Inv strict h0 n0 (seen ++ it) (core s').
Proof.
  intros Hbody. induction it as [|m it IH]; intros seen s s' Hnd I Hs; simplify_eq/=.
  - by rewrite app_nil_r.
  - destruct (body m s) as [s1|] eqn:H1; simplify_eq/=.
    change (m :: it) with ([m] ++ it)%list in Hnd |- *.
    rewrite (assoc_L app seen [m] it) in Hnd |- *.
    eapply IH; [done| |done].
    eapply steps_inv; [done..| |done].
    apply NoDup_app in Hnd as [Hnd _]. apply NoDup_app in Hnd as (_ & Hnd & _).
    intros Hin. apply (Hnd m Hin). by apply list_elem_of_singleton.
Qed.

Lemma TObjectIterator_app {S} (body : nat → S → option S) it1 it2 s :
  TObjectIterator body (it1 ++ it2) s =
  s1 ← TObjectIterator body it1 s; TObjectIterator body it2 s1.
Proof.
  revert s. induction it1 as [|p it1 IH]; intros s; simpl; [done|].
  destruct (body p s); simpl; [apply IH|done].
Qed.

(** ** Results of a whole collision pass *)

Lemma pass_inv strict body it w s :
  steps strict body → NoDup it → Fresh w →
  TObjectIterator body it (start w) = Some s →
  Inv strict (objects w) (NewGuidCalls w) it (core s).
Proof.
  intros Hbody Hnd Hw Hs.
  by apply (scan_inv strict body _ _ Hbody it [] (start w) s Hnd (Inv_start strict w Hw)).
Qed.

Lemma ShouldModify_true w p :
  ShouldModify w p = Some true →
  ∃ o, objects w !! p = Some o ∧ IsProjectContent o = true.
Proof.
  unfold ShouldModify, GetPathName. destruct (objects w !! p) as [o|]; [|done].
  simpl. intros [= H]. eauto.
Qed.

(** C2. After a run of [FixMaterialGuids] over an enumeration that yields each
    object once, with a generator whose identifiers are pairwise distinct and
    held by no object, two distinct enumerated objects that both pass
    [ShouldModify] do not hold the same identifier. *)
Theorem FixMaterialGuids_no_shared_identifier it w w' text a b :
  NoDup it → Fresh w →
  FixMaterialGuids it w = Some (w', text) →
  a ∈ it → b ∈ it → a ≠ b →
  ShouldModify w' a = Some true → ShouldModify w' b = Some true →
  GetLightingGuid w' a ≠ GetLightingGuid w' b.
Proof.
  intros Hnd Hw Hrun Ha Hb Hab (oa & Hoa & Howna)%ShouldModify_true
    (ob & Hob & Hownb)%ShouldModify_true.
  unfold FixMaterialGuids in Hrun.
  destruct (TObjectIterator _ _ _) as [s|] eqn:Hs; simplify_eq/=.
  pose proof (pass_inv _ _ _ _ _ FixMaterialGuids_body_steps Hnd Hw Hs) as I.
  rewrite (GetLightingGuid_live _ _ _ Hoa), (GetLightingGuid_live _ _ _ Hob).
  intros [= E].
  pose proof (inv_entered _ _ _ _ _ I a oa Ha Hoa Howna) as Ea.
  pose proof (inv_entered _ _ _ _ _ I b ob Hb Hob Hownb) as Eb.
  rewrite E in Ea. rewrite Ea in Eb by done. by injection Eb; [|done].
Qed.

(** The texture pass leaves invalid identifiers alone, so the same holds there
    for the objects whose identifier is valid. *)
Lemma FixTextureGuids_no_shared_identifier it w w' text a b ga :
  NoDup it → Fresh w →
  FixTextureGuids it w = Some (w', text) →
  a ∈ it → b ∈ it → a ≠ b →
  ShouldModify w' a = Some true → ShouldModify w' b = Some true →
  GetLightingGuid w' a = Some ga → IsValid ga = true →
  GetLightingGuid w' b ≠ Some ga.
Proof.
  intros Hnd Hw Hrun Ha Hb Hab (oa & Hoa & Howna)%ShouldModify_true
    (ob & Hob & Hownb)%ShouldModify_true.
  unfold FixTextureGuids in Hrun.
  destruct (TObjectIterator _ _ _) as [s|] eqn:Hs; simplify_eq/=.
  pose proof (pass_inv _ _ _ _ _ FixTextureGuids_body_steps Hnd Hw Hs) as I.
  rewrite (GetLightingGuid_live _ _ _ Hoa), (GetLightingGuid_live _ _ _ Hob).
  intros [= <-] Hval [= E].
  pose proof (inv_entered _ _ _ _ _ I a oa Ha Hoa Howna (λ _, Hval)) as Ea.
  rewrite <-E in Hval.
  pose proof (inv_entered _ _ _ _ _ I b ob Hb Hob Hownb (λ _, Hval)) as Eb.
  rewrite E in Eb. congruence.
Qed.

Lemma Inv_entries_held strict h0 n0 seen s :
  Inv strict h0 n0 seen (core s) → entries_held s.
Proof. intros I k r Hr. by destruct (inv_held _ _ _ _ _ I k r Hr). Qed.

(** C9. Along a run of either collision pass, over an enumeration that yields
    each object once and with a generator whose identifiers are pairwise
    distinct and held by no object: at the start of every iteration each entry
    of the registry maps an identifier to an object that holds it, and when the
    lookup for the current object finds an entry, the object found holds the
    identifier of the current one, so that the comparison of lines 123 and 193
    never fails. *)
Theorem registry_entries_are_held it w seen m rest s :
  NoDup it → Fresh w → it = (seen ++ m :: rest)%list →
  (TObjectIterator FixMaterialGuids_body seen (start w) = Some s →
     entries_held s ∧
     ∀ s1, FixMaterialGuids_invalid m s = Some (Proceed s1) → lookup_hits_holder s1 m) ∧
  (TObjectIterator FixTextureGuids_body seen (start w) = Some s →
     entries_held s ∧
     ∀ s1, FixTextureGuids_invalid m s = Some (Proceed s1) → lookup_hits_holder s1 m).
Proof.
  intros Hnd Hw ->. apply NoDup_app in Hnd as (Hnd & _ & _). split; intros Hs.
  - pose proof (pass_inv _ _ _ _ _ FixMaterialGuids_body_steps Hnd Hw Hs) as I.
    split; [by eapply Inv_entries_held|].
    intros s1. rewrite FixMaterialGuids_invalid_eq.
    destruct (objects (world s) !! m) as [om|] eqn:Hom; [simpl|done].
    destruct (IsValid _).
    + intros [= <-] g r Hg Hr. rewrite Hg. by eapply Inv_entries_held.
    + destruct (IsProjectContent om); [|done].
      intros [= <-] g r. unfold GetLightingGuid at 1. simpl.
      rewrite lookup_insert_eq. simpl.
      intros [= <-] Hr. destruct (inv_held _ _ _ _ _ I _ _ Hr) as [_ Hg].
      simpl in Hg. destruct (objects (world s) !! r) as [o|] eqn:Ho; [|done].
      injection Hg as Hg.
      by destruct (inv_fresh _ _ _ _ _ I (NewGuidCalls (world s)) r o).
  - pose proof (pass_inv _ _ _ _ _ FixTextureGuids_body_steps Hnd Hw Hs) as I.
    split; [by eapply Inv_entries_held|].
    intros s1. rewrite FixTextureGuids_invalid_eq.
    destruct (objects (world s) !! m) as [om|] eqn:Hom; [simpl|done].
    destruct (IsValid _); [|done].
    intros [= <-] g r Hg Hr. rewrite Hg. by eapply Inv_entries_held.
Qed.

(** ** Every pass runs to completion *)



























(** ** The dialog *)

(** C6. In each of the three passes the dialog shows a text that is a
    function of the two flags the scan ends with, one of four fixed texts:
    nothing found for (false, false), changed for (true, false), unresolved
    for (false, true), changed and unresolved for (true, true); the four texts
    of a pass are pairwise different, and the passes differ in the wording
    only. *)
Theorem report_synthesis :
  (∀ it w, FixMaterialGuids it w =
     (λ s, (world s,
        report "No duplicate material GUIDs found."
          "At least one material GUID has been changed. Use save all to save these changes."
          "No material GUID has been changed, but there are some unresolvable issues (Please refer to log)."
          "At least one material GUID has been changed, but there are some unresolvable issues (Please refer to log). Use save all to save these changes."
          (flags s)))
     <$> TObjectIterator FixMaterialGuids_body it (start w)) ∧
  (∀ it w, FixTextureGuids it w =
     (λ s, (world s,
        report "No duplicate texture GUIDs found."
          "At least one texture GUID has been changed. Use save all to save these changes."
          "No texture GUID has been changed, but there are some unresolvable issues (Please refer to log)."
          "At least one texture GUID has been changed, but there are some unresolvable issues (Please refer to log). Use save all to save these changes."
          (flags s)))
     <$> TObjectIterator FixTextureGuids_body it (start w)) ∧
  (∀ it w, FixEmptyTextureGuids it w =
     (λ s, (s.1,
        report "No empty texture GUIDs found."
          "At least one texture GUID has been changed. Use save all to save these changes."
          "No texture GUID has been changed, but there are some unresolvable issues (Please refer to log)."
          "At least one texture GUID has been changed, but there are some unresolvable issues (Please refer to log). Use save all to save these changes."
          s.2))
     <$> TObjectIterator FixEmptyTextureGuids_body it (w, no_flags)) ∧
  NoDup (MaterialDialogText <$>
    [no_flags; set_bMadeChanges no_flags; set_bHasWarnings no_flags;
     set_bMadeChanges (set_bHasWarnings no_flags)]) ∧
  NoDup (TextureDialogText <$>
    [no_flags; set_bMadeChanges no_flags; set_bHasWarnings no_flags;
     set_bMadeChanges (set_bHasWarnings no_flags)]) ∧
  NoDup (EmptyTextureDialogText <$>
    [no_flags; set_bMadeChanges no_flags; set_bHasWarnings no_flags;
     set_bMadeChanges (set_bHasWarnings no_flags)]).
Proof.
  split_and!.
  - intros it w. unfold FixMaterialGuids.
    destruct (TObjectIterator _ _ _) as [[? ? [[] []]]|]; done.
  - intros it w. unfold FixTextureGuids.
    destruct (TObjectIterator _ _ _) as [[? ? [[] []]]|]; done.
  - intros it w. unfold FixEmptyTextureGuids.
    destruct (TObjectIterator _ _ _) as [[? [[] []]]|]; done.
  - apply (bool_decide_unpack _). by vm_compute.
  - apply (bool_decide_unpack _). by vm_compute.
  - apply (bool_decide_unpack _). by vm_compute.
Qed.

(** ** Textures without a valid identifier *)

(** C7. On a texture whose identifier is invalid, whoever owns it, the body
    of [FixTextureGuids] sets [bHasWarnings] and changes neither the objects,
    nor the registry, nor [bMadeChanges]; when the texture belongs to the
    project, the body of [FixEmptyTextureGuids] gives it the next identifier
    of the generator and sets [bMadeChanges] only, and on that texture alone
    the first pass reports a warning without change and the second pass,
    run after it, a change without warning. *)
Theorem texture_without_identifier s t o :
  objects (world s) !! t = Some o →
  IsValid (LightingGuid o) = false →
  (∃ s', FixTextureGuids_body t s = Some s' ∧
     objects (world s') = objects (world s) ∧
     NewGuidCalls (world s') = NewGuidCalls (world s) ∧
     Guids s' = Guids s ∧
     flags s' = set_bHasWarnings (flags s)) ∧
  (IsProjectContent o = true →
     (∀ f, ∃ w', FixEmptyTextureGuids_body t (world s, f) = Some (w', set_bMadeChanges f) ∧
        objects w' = <[t := renew (NewGuid (NewGuidCalls (world s))) o]> (objects (world s))) ∧
     ∃ w1 w2,
       FixTextureGuids [t] (world s) =
         Some (w1, "No texture GUID has been changed, but there are some unresolvable issues (Please refer to log).") ∧
       objects w1 = objects (world s) ∧
       FixEmptyTextureGuids [t] w1 =
         Some (w2, "At least one texture GUID has been changed. Use save all to save these changes.") ∧
       GetLightingGuid w2 t = Some (NewGuid (NewGuidCalls (world s)))).
Proof.
  intros Ho Hinv. split.
  - rewrite FixTextureGuids_body_eq, Ho. simpl. rewrite Hinv. by eexists.
  - intros Hown. split.
    + intros f. rewrite FixEmptyTextureGuids_body_eq. simpl. rewrite Ho. simpl.
      rewrite Hinv, Hown. by eexists.
    + unfold FixTextureGuids, FixEmptyTextureGuids. simpl.
      rewrite FixTextureGuids_body_eq. simpl. rewrite Ho. simpl. rewrite Hinv. simpl.
      eexists _, _. split; [done|]. split; [done|].
      rewrite FixEmptyTextureGuids_body_eq. simpl. rewrite Ho. simpl.
      rewrite Hinv, Hown. simpl. split; [done|].
      unfold GetLightingGuid. simpl. by rewrite lookup_insert_eq.
Qed.

(** ** Textures that all have a valid identifier *)

Lemma FixEmptyTextureGuids_body_valid p s g :
  GetLightingGuid s.1 p = Some g → IsValid g = true →
  FixEmptyTextureGuids_body p s = Some s.
Proof. unfold FixEmptyTextureGuids_body. intros -> Hval. simpl. by rewrite Hval. Qed.

(** C8. [FixEmptyTextureGuids] keeps no registry and compares no identifiers:
    when every enumerated texture holds a valid identifier, shared or not, the
    pass returns the host as it was, objects, generator and log, with both
    flags unset, and the dialog says that no empty identifier was found. *)
Theorem FixEmptyTextureGuids_all_valid it w :
  (∀ p, p ∈ it → ∃ g, GetLightingGuid w p = Some g ∧ IsValid g = true) →
  TObjectIterator FixEmptyTextureGuids_body it (w, no_flags) = Some (w, no_flags) ∧
  FixEmptyTextureGuids it w = Some (w, "No empty texture GUIDs found.").
Proof.
  intros Hvalid.
  assert (TObjectIterator FixEmptyTextureGuids_body it (w, no_flags) = Some (w, no_flags))
    as Hrun.
  { induction it as [|p it IH]; cbn [TObjectIterator]; [done|].
    destruct (Hvalid p) as (g & Hg & Hval); [by left|].
    rewrite (FixEmptyTextureGuids_body_valid p (w, no_flags) g Hg Hval).
    apply IH. intros q Hq. apply Hvalid. by right. }
  split; [done|]. unfold FixEmptyTextureGuids. by rewrite Hrun.
Qed.

(** ** Two objects of the project that share an identifier *)

Lemma Step_drawn strict m c c' : Step strict m c c' → drawn c ≤ drawn c'.
Proof.
  intros [om _ _ _ ->|om _ _ _ _ ->|om _ _ _ ->|om r o _ _ _ _ _ _ ->]; simpl; try lia.
  destruct (IsProjectContent o), (IsProjectContent om); simpl; lia.
Qed.

(** A step on an object that holds another identifier than [k] leaves the
    entry of [k] as it is. *)
Lemma Step_registry_other strict m c c' om k :
  Step strict m c c' → heap c !! m = Some om → LightingGuid om ≠ k →
  (∀ i, drawn c ≤ i → NewGuid i ≠ k) →
  registry c' !! k = registry c !! k.
Proof.
  intros St Hom Hk Hnew.
  destruct St as [om' ? _ _ ->|om' _ ? _ _ ->|om' ? _ _ ->|om' r o ? _ _ _ _ _ ->];
    (assert (om' = om) as -> by congruence); simpl; try done.
  - rewrite lookup_insert_ne; [done|]. apply Hnew. lia.
  - by rewrite lookup_insert_ne.
  - destruct (IsProjectContent o), (IsProjectContent om); simpl;
      rewrite ?lookup_insert_ne, ?lookup_delete_ne; try done;
      apply Hnew; lia.
Qed.

(** A step writes the current object and the one found in the registry, and
    no other. *)
Lemma Step_heap_other strict m c c' om p :
  Step strict m c c' → heap c !! m = Some om → p ≠ m →
  registry c !! LightingGuid om ≠ Some p →
  heap c' !! p = heap c !! p.
Proof.
  intros St Hom Hp Hreg.
  destruct St as [om' ? _ _ ->|om' _ ? _ _ ->|om' ? _ _ ->|om' r o ? _ Hr _ _ _ ->];
    (assert (om' = om) as -> by congruence); simpl; try done.
  - by rewrite lookup_insert_ne.
  - assert (r ≠ p) by congruence.
    destruct (IsProjectContent o), (IsProjectContent om); simpl;
      by rewrite ?lookup_insert_ne.
Qed.

Section Pair.

Context (strict : bool) (body : nat → Scan → option Scan) (Hbody : steps strict body).
Context (h0 : gmap nat UObject) (n0 : nat).
Context (a b : nat) (oa ob : UObject).
Context (Ha : h0 !! a = Some oa) (Hb : h0 !! b = Some ob) (Hab : a ≠ b).
Context (Hshared : LightingGuid ob = LightingGuid oa).
Context (Hvalid : IsValid (LightingGuid oa) = true).
Context (Howna : IsProjectContent oa = true) (Hownb : IsProjectContent ob = true).

Lemma shared_not_drawn seen c i :
  Inv strict h0 n0 seen c → drawn c ≤ i → NewGuid i ≠ LightingGuid oa.
Proof.
  intros I Hi E. pose proof (inv_drawn _ _ _ _ _ I).
  apply (inv_initial _ _ _ _ _ I i a oa); [lia|done|done].
Qed.

Lemma other_before_both seen c c' m :
  Inv strict h0 n0 seen c → m ∉ seen → other h0 a b oa m → Step strict m c c' →
  before_both oa c → before_both oa c'.
Proof.
  intros I Hm (_ & _ & Hk) St P. unfold before_both in *.
  assert (is_Some (heap c !! m)) as [om Hom] by (destruct St; by eexists).
  rewrite (Step_registry_other _ _ _ _ om _ St); [done|done| |].
  - apply Hk. by rewrite <-(inv_later _ _ _ _ _ I m Hm).
  - intros i. by eapply shared_not_drawn.
Qed.

Lemma other_between seen c c' m :
  Inv strict h0 n0 seen c → m ∉ seen → other h0 a b oa m → Step strict m c c' →
  between a oa c → between a oa c'.
Proof.
  intros I Hm (Hma & _ & Hk) St [Hreg Hheap]. unfold between.
  assert (is_Some (heap c !! m)) as [om Hom] by (destruct St; by eexists).
  assert (LightingGuid om ≠ LightingGuid oa) as Hne.
  { apply Hk. by rewrite <-(inv_later _ _ _ _ _ I m Hm). }
  split.
  - rewrite (Step_registry_other _ _ _ _ om _ St); [done|done|done|].
    intros i. by eapply shared_not_drawn.
  - rewrite (Step_heap_other _ _ _ _ om a St); [done|done|done|].
    intros Hr. destruct (inv_held _ _ _ _ _ I _ _ Hr) as [_ Hg].
    rewrite Hheap in Hg. simpl in Hg. congruence.
Qed.

Lemma other_after_both seen c c' m :
  Inv strict h0 n0 seen c → m ∉ seen → other h0 a b oa m → Step strict m c c' →
  after_both n0 a b c → after_both n0 a b c'.
Proof.
  intros I Hm (Hma & Hmb & _) St (i & j & oa' & ob' & Hij & Hi & Hj & Hoa & Hob & Ei & Ej).
  assert (is_Some (heap c !! m)) as [om Hom] by (destruct St; by eexists).
  assert (∀ p o l, heap c !! p = Some o → LightingGuid o = NewGuid l → n0 ≤ l →
            registry c !! LightingGuid om ≠ Some p) as Hnot.
  { intros p o l Hp El Hl Hr. destruct (inv_held _ _ _ _ _ I _ _ Hr) as [_ Hg].
    rewrite Hp in Hg. simpl in Hg. injection Hg as Hg.
    rewrite (inv_later _ _ _ _ _ I m Hm) in Hom.
    apply (inv_initial _ _ _ _ _ I l m om); [done|done|congruence]. }
  pose proof (Step_drawn _ _ _ _ St).
  exists i, j, oa', ob'. split_and!; try done; try lia.
  - rewrite (Step_heap_other _ _ _ _ om a St); [done|done|done|].
    eapply Hnot; [done..|lia].
  - rewrite (Step_heap_other _ _ _ _ om b St); [done|done|done|].
    eapply Hnot; [done..|lia].
Qed.

Lemma first_enters seen c c' :
  Inv strict h0 n0 seen c → a ∉ seen → Step strict a c c' →
  before_both oa c → between a oa c'.
Proof.
  intros I Hseen St P. unfold before_both in P.
  pose proof (inv_later _ _ _ _ _ I a Hseen) as Hheap. rewrite Ha in Hheap.
  destruct St as [om Hom ? _ ->|om _ Hom ? _ ->|om Hom _ _ ->|om r o Hom _ ? _ _ _ ->];
    (assert (om = oa) as -> by congruence); try congruence.
  split; simpl; [apply lookup_insert_eq|done].
Qed.

Lemma second_collides seen c c' :
  Inv strict h0 n0 seen c → b ∉ seen → Step strict b c c' →
  between a oa c → after_both n0 a b c'.
Proof.
  intros I Hseen St [Hreg Hheap].
  pose proof (inv_later _ _ _ _ _ I b Hseen) as Hheapb. rewrite Hb in Hheapb.
  pose proof (inv_drawn _ _ _ _ _ I).
  destruct St as [om Hom ? _ ->|om _ Hom ? _ ->|om Hom _ ? ->|om r o Hom _ Hr Ho ? _ ->];
    (assert (om = ob) as -> by congruence); try congruence.
  rewrite Hshared in *.
  assert (r = a) as -> by congruence. assert (o = oa) as -> by congruence.
  rewrite Howna, Hownb. simpl.
  exists (drawn c), (S (drawn c)), (renew (NewGuid (drawn c)) oa),
    (renew (NewGuid (S (drawn c))) ob).
  simpl. split_and!; try done; try lia.
  - rewrite lookup_insert_ne by done. apply lookup_insert_eq.
  - apply lookup_insert_eq.
Qed.

(** A stretch of the enumeration without the two objects. *)
Lemma scan_others (P : Core → Prop) :
  (∀ seen c c' m, Inv strict h0 n0 seen c → m ∉ seen → other h0 a b oa m →
     Step strict m c c' → P c → P c') →
  ∀ it seen s s', NoDup (seen ++ it) → (∀ m, m ∈ it → other h0 a b oa m) →
    Inv strict h0 n0 seen (core s) → P (core s) →
    TObjectIterator body it s = Some s' → P (core s').
Proof.
  intros HP. induction it as [|m it IH]; intros seen s s' Hnd Hother I Ps Hs;
    simplify_eq/=; [done|].
  destruct (body m s) as [s1|] eqn:H1; simplify_eq/=.
  change (m :: it) with ([m] ++ it)%list in Hnd.
  rewrite (assoc_L app seen [m] it) in Hnd.
  assert (m ∉ seen) as Hm.
  { apply NoDup_app in Hnd as [Hnd _]. apply NoDup_app in Hnd as (_ & Hnd & _).
    intros Hin. apply (Hnd m Hin). by apply list_elem_of_singleton. }
  destruct (steps_inv _ _ _ _ _ _ _ _ Hbody I Hm H1) as [St I1].
  eapply (IH (seen ++ [m])%list s1 s'); [done| |done| |done].
  - intros p Hp. apply Hother. by right.
  - apply (HP seen (core s) (core s1) m); [done|done| |done|done]. apply Hother. by left.
Qed.

Lemma pair_in_order l1 l2 l3 s0 s :
  Inv strict h0 n0 [] (core s0) → before_both oa (core s0) →
  NoDup (l1 ++ a :: l2 ++ b :: l3) →
  (∀ m, m ∈ (l1 ++ a :: l2 ++ b :: l3)%list → m ≠ a → m ≠ b →
     ∀ o, h0 !! m = Some o → LightingGuid o ≠ LightingGuid oa) →
  TObjectIterator body (l1 ++ a :: l2 ++ b :: l3) s0 = Some s →
  after_both n0 a b (core s).
Proof.
  intros I0 P0 Hnd Hrest Hs.
  rewrite TObjectIterator_app in Hs.
  destruct (TObjectIterator body l1 s0) as [s1|] eqn:H1; simplify_eq/=.
  destruct (body a s1) as [s2|] eqn:H2; simplify_eq/=.
  rewrite TObjectIterator_app in Hs.
  destruct (TObjectIterator body l2 s2) as [s3|] eqn:H3; simplify_eq/=.
  destruct (body b s3) as [s4|] eqn:H4; simplify_eq/=.
  assert (NoDup l1 ∧ (a ∉ l1) ∧ (b ∉ l1) ∧ (a ∉ l2) ∧ (b ∉ l2) ∧ (a ∉ l3) ∧ (b ∉ l3)) as
    (Hnd1 & Hal1 & Hbl1 & Hal2 & Hbl2 & Hal3 & Hbl3).
  { apply NoDup_app in Hnd as (Hnd1 & Hd1 & Hnd').
    apply NoDup_cons in Hnd' as [Ha' Hnd'].
    apply NoDup_app in Hnd' as (Hnd2 & Hd2 & Hnd').
    apply NoDup_cons in Hnd' as [Hb' Hnd3].
    split_and!; try done.
    - intros Hin. apply (Hd1 a Hin). by left.
    - intros Hin. apply (Hd1 b Hin). right. apply elem_of_app. right. by left.
    - intros Hin. apply Ha'. apply elem_of_app. by left.
    - intros Hin. apply (Hd2 b Hin). by left.
    - intros Hin. apply Ha'. apply elem_of_app. right. by right. }
  (* before the first *)
  assert (Inv strict h0 n0 l1 (core s1)) as I1.
  { by apply (scan_inv strict body _ _ Hbody l1 [] s0 s1). }
  assert (before_both oa (core s1)) as P1.
  { apply (scan_others (before_both oa) other_before_both l1 [] s0 s1); try done.
    intros m Hm. split_and!; [by intros ->|by intros ->|].
    apply Hrest; [apply elem_of_app; by left|by intros ->|by intros ->]. }
  (* the first *)
  destruct (steps_inv _ _ _ _ _ _ _ _ Hbody I1 Hal1 H2) as [St2 I2].
  pose proof (first_enters _ _ _ I1 Hal1 St2 P1) as P2.
  (* between the two *)
  assert (NoDup ((l1 ++ [a]) ++ l2)) as Hnd2.
  { rewrite <-(assoc_L app). simpl.
    change (a :: l2 ++ b :: l3) with ((a :: l2) ++ b :: l3)%list in Hnd.
    rewrite (assoc_L app) in Hnd. by apply NoDup_app in Hnd as [? _]. }
  assert (Inv strict h0 n0 ((l1 ++ [a]) ++ l2) (core s3)) as I3.
  { by apply (scan_inv strict body _ _ Hbody l2 (l1 ++ [a])%list s2 s3). }
  assert (between a oa (core s3)) as P3.
  { apply (scan_others (between a oa) other_between l2 (l1 ++ [a])%list s2 s3); try done.
    intros m Hm. split_and!; [by intros ->|by intros ->|].
    apply Hrest; [|by intros ->|by intros ->].
    apply elem_of_app. right. right. apply elem_of_app. by left. }
  (* the second *)
  assert (b ∉ ((l1 ++ [a]) ++ l2)%list) as Hbseen.
  { rewrite !elem_of_app, list_elem_of_singleton. intros [[?|?]|?]; done. }
  destruct (steps_inv _ _ _ _ _ _ _ _ Hbody I3 Hbseen H4) as [St4 I4].
  pose proof (second_collides _ _ _ I3 Hbseen St4 P3) as P4.
  (* after both *)
  apply (scan_others (after_both n0 a b) other_after_both l3 (((l1 ++ [a]) ++ l2) ++ [b])%list s4 s);
    try done.
  - by rewrite <-!(assoc_L app).
  - intros m Hm. split_and!; [by intros ->|by intros ->|].
    apply Hrest; [|by intros ->|by intros ->].
    apply elem_of_app. right. right. apply elem_of_app. right. by right.
Qed.

End Pair.

Lemma after_both_distinct strict w seen c a b oa :
  Fresh w → Inv strict (objects w) (NewGuidCalls w) seen c →
  objects w !! a = Some oa →
  after_both (NewGuidCalls w) a b c →
  ∃ oa' ob', heap c !! a = Some oa' ∧ heap c !! b = Some ob' ∧
    LightingGuid oa' ≠ LightingGuid oa ∧ LightingGuid ob' ≠ LightingGuid oa ∧
    LightingGuid oa' ≠ LightingGuid ob'.
Proof.
  intros [Hinj Hnew] I Ha (i & j & oa' & ob' & Hij & Hi & Hj & Hoa & Hob & Ei & Ej).
  exists oa', ob'. split_and!; try done.
  - rewrite Ei. intros E. apply (Hnew i a oa); [lia|done|done].
  - rewrite Ej. intros E. apply (Hnew j a oa); [lia|done|done].
  - rewrite Ei, Ej. intros E. apply Hij, Hinj; [lia|lia|done].
Qed.

(** C3, as the code has it. When exactly two enumerated objects of the
    project hold the same valid identifier and no other enumerated object holds
    it, a run of [FixMaterialGuids] (each object enumerated once, identifiers
    of the generator pairwise distinct and held by no object) leaves both with
    a new identifier: neither keeps the shared one, and the two new identifiers
    differ. *)
Theorem shared_pair_both_renewed it w w' text a b k :
  NoDup it → Fresh w →
  a ∈ it → b ∈ it → a ≠ b →
  ShouldModify w a = Some true → ShouldModify w b = Some true →
  GetLightingGuid w a = Some k → GetLightingGuid w b = Some k →
  IsValid k = true →
  (∀ m, m ∈ it → m ≠ a → m ≠ b → GetLightingGuid w m ≠ Some k) →
  FixMaterialGuids it w = Some (w', text) →
  ∃ ga gb, GetLightingGuid w' a = Some ga ∧ GetLightingGuid w' b = Some gb ∧
    ga ≠ k ∧ gb ≠ k ∧ ga ≠ gb.
Proof.
  intros Hnd Hw Hain Hbin Hab (oa & Hoa & Howna)%ShouldModify_true
    (ob & Hob & Hownb)%ShouldModify_true.
  rewrite (GetLightingGuid_live _ _ _ Hoa), (GetLightingGuid_live _ _ _ Hob).
  intros [= <-] [= Hshared] Hvalid Hrest Hrun.
  unfold FixMaterialGuids in Hrun.
  destruct (TObjectIterator _ _ _) as [s|] eqn:Hs; simplify_eq/=.
  pose proof (pass_inv _ _ _ _ _ FixMaterialGuids_body_steps Hnd Hw Hs) as I.
  pose proof (Inv_start false w Hw) as I0.
  assert (∀ m, m ∈ it → m ≠ a → m ≠ b →
            ∀ o, objects w !! m = Some o → LightingGuid o ≠ LightingGuid oa) as Hrest'.
  { intros m Hm Hma Hmb o Ho E. apply (Hrest m Hm Hma Hmb).
    by rewrite (GetLightingGuid_live _ _ _ Ho), E. }
  assert (∀ x y ox oy l1 l2 l3,
            objects w !! x = Some ox → objects w !! y = Some oy → x ≠ y →
            LightingGuid oy = LightingGuid ox → IsValid (LightingGuid ox) = true →
            IsProjectContent ox = true → IsProjectContent oy = true →
            (∀ m, m ∈ it → m ≠ x → m ≠ y →
               ∀ o, objects w !! m = Some o → LightingGuid o ≠ LightingGuid ox) →
            it = (l1 ++ x :: l2 ++ y :: l3)%list →
            after_both (NewGuidCalls w) x y (core s)) as Hordered.
  { intros x y ox oy l1 l2 l3 Hx Hy Hxy Hsh Hval Hownx Howny Hr ->.
    by eapply (pair_in_order false FixMaterialGuids_body FixMaterialGuids_body_steps
      (objects w) (NewGuidCalls w) x y ox oy Hx Hy Hxy Hsh Hval Hownx Howny
      l1 l2 l3 (start w) s). }
  assert (after_both (NewGuidCalls w) a b (core s)) as P.
  { destruct (list_elem_of_split _ _ Hain) as (l1 & l2 & E).
    assert (b ∈ l1 ∨ b ∈ l2) as [Hb1|Hb2].
    { rewrite E in Hbin. apply elem_of_app in Hbin as [?|Hbin]; [by left|].
      apply elem_of_cons in Hbin as [?|?]; [congruence|by right]. }
    - destruct (list_elem_of_split _ _ Hb1) as (l1' & l1'' & E1).
      assert (after_both (NewGuidCalls w) b a (core s)) as
        (i & j & ob' & oa' & Hij & Hi & Hj & Hb' & Ha' & Ei & Ej).
      { apply (Hordered b a ob oa l1' l1'' l2 Hob Hoa (not_eq_sym Hab) (eq_sym Hshared)).
        - by rewrite Hshared.
        - done.
        - done.
        - rewrite Hshared. intros m Hm Hmb Hma. by apply Hrest'.
        - by rewrite E, E1, <-(assoc_L app). }
      exists j, i, oa', ob'. split_and!; try done; lia.
    - destruct (list_elem_of_split _ _ Hb2) as (l2' & l3 & E2).
      apply (Hordered a b oa ob l1 l2' l3 Hoa Hob Hab Hshared Hvalid Howna Hownb Hrest').
      by rewrite E, E2. }
  destruct (after_both_distinct false w it (core s) a b oa Hw I Hoa P)
    as (oa' & ob' & Ha' & Hb' & ? & ? & ?).
  exists (LightingGuid oa'), (LightingGuid ob').
  rewrite (GetLightingGuid_live _ _ _ Ha'), (GetLightingGuid_live _ _ _ Hb'). done.
Qed.

(** ** Three objects of the project that share an identifier *)

(** Of three materials of the project with one valid identifier, in whatever
    order they are enumerated, the first two get the next two identifiers of
    the generator when the second is visited, the third keeps the shared one,
    and the dialog reports a change without unresolved issues. *)
Theorem three_of_project_share a b c k w :
  NoDup [a; b; c] → Fresh w →
  ShouldModify w a = Some true → ShouldModify w b = Some true →
  ShouldModify w c = Some true →
  GetLightingGuid w a = Some k → GetLightingGuid w b = Some k →
  GetLightingGuid w c = Some k → IsValid k = true →
  ∃ w', FixMaterialGuids [a; b; c] w =
          Some (w', "At least one material GUID has been changed. Use save all to save these changes.") ∧
        GetLightingGuid w' a = Some (NewGuid (NewGuidCalls w)) ∧
        GetLightingGuid w' b = Some (NewGuid (S (NewGuidCalls w))) ∧
        GetLightingGuid w' c = Some k.
Proof.
  intros Hnd [Hinj Hnew] (oa & Hoa & Howna)%ShouldModify_true
    (ob & Hob & Hownb)%ShouldModify_true (oc & Hoc & Hownc)%ShouldModify_true.
  rewrite (GetLightingGuid_live _ _ _ Hoa), (GetLightingGuid_live _ _ _ Hob),
    (GetLightingGuid_live _ _ _ Hoc).
  intros [= <-] [= Hkb] [= Hkc] Hvalid.
  apply NoDup_cons in Hnd as [Hab Hnd]. apply NoDup_cons in Hnd as [Hbc _].
  assert (a ≠ b ∧ a ≠ c ∧ b ≠ c) as (Hab' & Hac' & Hbc').
  { apply not_elem_of_cons in Hab as [? Hac]. apply not_elem_of_cons in Hac as [? _].
    apply not_elem_of_cons in Hbc as [? _]. done. }
  assert (NewGuid (NewGuidCalls w) ≠ LightingGuid oa) as Hn0.
  { intros E. by apply (Hnew (NewGuidCalls w) a oa). }
  assert (NewGuid (S (NewGuidCalls w)) ≠ LightingGuid oa) as Hn1.
  { intros E. apply (Hnew (S (NewGuidCalls w)) a oa); [lia|done|done]. }
  unfold FixMaterialGuids. cbn [TObjectIterator].
  (* the first is entered *)
  rewrite FixMaterialGuids_body_eq. simpl. rewrite Hoa. simpl. rewrite Hvalid.
  rewrite FixMaterialGuids_lookup_eq. unfold lookup_of. simpl. rewrite Hoa. simpl.
  rewrite lookup_empty. simpl.
  (* the second finds it: both get a new identifier *)
  rewrite FixMaterialGuids_body_eq. simpl. rewrite Hob. simpl. rewrite Hkb, Hvalid.
  rewrite FixMaterialGuids_lookup_eq. unfold lookup_of. simpl. rewrite Hob. simpl.
  rewrite Hkb, lookup_insert_eq. simpl.
  unfold incumbent_of. simpl. rewrite Hoa, Hob. simpl.
  rewrite bool_decide_eq_true_2 by done. rewrite Howna. simpl.
  unfold current_of. simpl. rewrite lookup_insert_ne, Hob by done. simpl.
  rewrite Hownb. simpl.
  (* the third finds no entry *)
  rewrite FixMaterialGuids_body_eq. simpl.
  rewrite !lookup_insert_ne, Hoc by done. simpl. rewrite Hkc, Hvalid.
  rewrite FixMaterialGuids_lookup_eq. unfold lookup_of. simpl.
  rewrite !lookup_insert_ne, Hoc by done. simpl. rewrite Hkc.
  rewrite !lookup_insert_ne, lookup_delete_eq by done. simpl.
  eexists. split; [reflexivity|].
  unfold GetLightingGuid. simpl.
  rewrite (lookup_insert_ne _ b a), !lookup_insert_eq by done.
  rewrite !lookup_insert_ne, Hoc by done. simpl. by rewrite Hkc.
Qed.

(** ** An enumeration without collision *)

Lemma lookup_of_enters line mid tail m om s :
  objects (world s) !! m = Some om → Guids s !! LightingGuid om = None →
  lookup_of line mid tail m s = Some (entered (LightingGuid om) m s).
Proof. unfold lookup_of. intros -> Hnone. simpl. by rewrite Hnone. Qed.

Lemma FixMaterialGuids_body_enters m om s :
  objects (world s) !! m = Some om → IsValid (LightingGuid om) = true →
  Guids s !! LightingGuid om = None →
  FixMaterialGuids_body m s = Some (entered (LightingGuid om) m s).
Proof.
  intros Hom Hval Hnone. rewrite FixMaterialGuids_body_eq, Hom. simpl. rewrite Hval.
  rewrite FixMaterialGuids_lookup_eq. by apply lookup_of_enters.
Qed.

Lemma FixTextureGuids_body_enters m om s :
  objects (world s) !! m = Some om → IsValid (LightingGuid om) = true →
  Guids s !! LightingGuid om = None →
  FixTextureGuids_body m s = Some (entered (LightingGuid om) m s).
Proof.
  intros Hom Hval Hnone. rewrite FixTextureGuids_body_eq, Hom. simpl. rewrite Hval.
  rewrite FixTextureGuids_lookup_eq. by apply lookup_of_enters.
Qed.

(** A scan whose body only enters valid identifiers met for the first time
    changes the registry and nothing else. *)
Lemma scan_enters (body : nat → Scan → option Scan) w :
  (∀ m om s, objects (world s) !! m = Some om → IsValid (LightingGuid om) = true →
     Guids s !! LightingGuid om = None →
     body m s = Some (entered (LightingGuid om) m s)) →
  ∀ it seen s,
    NoDup (seen ++ it) →
    (∀ p, p ∈ it → ∃ g, GetLightingGuid w p = Some g ∧ IsValid g = true) →
    (∀ p q, p ∈ (seen ++ it)%list → q ∈ (seen ++ it)%list →
       GetLightingGuid w p = GetLightingGuid w q → p = q) →
    world s = w → flags s = no_flags →
    (∀ g r, Guids s !! g = Some r → r ∈ seen ∧ GetLightingGuid w r = Some g) →
    ∃ s', TObjectIterator body it s = Some s' ∧ world s' = w ∧ flags s' = no_flags.
Proof.
  intros Hbody. induction it as [|m it IH]; intros seen s Hnd Hvalid Hinj Hw Hf Hreg.
  - by exists s.
  - cbn [TObjectIterator].
    destruct (Hvalid m) as (g & Hg & Hval); [by left|].
    assert (∃ om, objects w !! m = Some om ∧ LightingGuid om = g) as (om & Hom & <-).
    { unfold GetLightingGuid in Hg. destruct (objects w !! m) as [om|]; [|done].
      exists om. by injection Hg. }
    change (m :: it) with ([m] ++ it)%list in Hnd, Hinj.
    rewrite (assoc_L app seen [m] it) in Hnd, Hinj.
    assert (m ∉ seen) as Hm.
    { apply NoDup_app in Hnd as [Hnd _]. apply NoDup_app in Hnd as (_ & Hnd & _).
      intros Hin. apply (Hnd m Hin). by apply list_elem_of_singleton. }
    assert (Guids s !! LightingGuid om = None) as Hnone.
    { destruct (Guids s !! LightingGuid om) as [r|] eqn:Hr; [|done].
      destruct (Hreg _ _ Hr) as [Hseen Hgr]. destruct Hm.
      rewrite (Hinj m r); [done| | |by rewrite Hg, Hgr].
      - apply elem_of_app. left. apply elem_of_app. right. by left.
      - apply elem_of_app. left. apply elem_of_app. by left. }
    rewrite (Hbody m om s); [|by rewrite Hw|done|done]. simpl.
    apply (IH (seen ++ [m])%list); try done.
    + intros p Hp. apply Hvalid. by right.
    + intros g r. simpl. destruct (decide (LightingGuid om = g)) as [<-|Hne].
      * rewrite lookup_insert_eq. intros [= <-]. split; [|done].
        apply elem_of_app. right. by left.
      * rewrite lookup_insert_ne by done. intros Hr.
        destruct (Hreg _ _ Hr). split; [|done]. apply elem_of_app. by left.
Qed.

Lemma FixMaterialGuids_clean it w :
  NoDup it →
  (∀ p, p ∈ it → ∃ g, GetLightingGuid w p = Some g ∧ IsValid g = true) →
  (∀ p q, p ∈ it → q ∈ it → GetLightingGuid w p = GetLightingGuid w q → p = q) →
  FixMaterialGuids it w = Some (w, "No duplicate material GUIDs found.").
Proof.
  intros Hnd Hvalid Hinj. unfold FixMaterialGuids.
  destruct (scan_enters FixMaterialGuids_body w FixMaterialGuids_body_enters
              it [] (start w)) as (s' & -> & Hw & Hf); try done.
  simpl. by rewrite Hw, Hf.
Qed.

Lemma FixTextureGuids_clean it w :
  NoDup it →
  (∀ p, p ∈ it → ∃ g, GetLightingGuid w p = Some g ∧ IsValid g = true) →
  (∀ p q, p ∈ it → q ∈ it → GetLightingGuid w p = GetLightingGuid w q → p = q) →
  FixTextureGuids it w = Some (w, "No duplicate texture GUIDs found.").
Proof.
  intros Hnd Hvalid Hinj. unfold FixTextureGuids.
  destruct (scan_enters FixTextureGuids_body w FixTextureGuids_body_enters
              it [] (start w)) as (s' & -> & Hw & Hf); try done.
  simpl. by rewrite Hw, Hf.
Qed.

(** On an enumeration (each object once) whose identifiers are valid and
    pairwise different both collision passes change nothing, write nothing to
    the log, and say that no duplicate was found. *)
Theorem passes_keep_clean_enumeration it w :
  NoDup it →
  (∀ p, p ∈ it → ∃ g, GetLightingGuid w p = Some g ∧ IsValid g = true) →
  (∀ p q, p ∈ it → q ∈ it → GetLightingGuid w p = GetLightingGuid w q → p = q) →
  FixMaterialGuids it w = Some (w, "No duplicate material GUIDs found.") ∧
  FixTextureGuids it w = Some (w, "No duplicate texture GUIDs found.").
Proof.
  intros Hnd Hvalid Hinj. split.
  - by apply FixMaterialGuids_clean.
  - by apply FixTextureGuids_clean.
Qed.

(** ** A second run when every material belongs to the project *)

(** Every visited object of the project holds a valid identifier. *)
Lemma Step_valid_seen n0 seen m c c' :
  (∀ i, n0 ≤ i → IsValid (NewGuid i) = true) → n0 ≤ drawn c →
  Step false m c c' →
  (∀ p o, p ∈ seen → heap c !! p = Some o → IsProjectContent o = true →
     IsValid (LightingGuid o) = true) →
  (∀ p o, p ∈ (seen ++ [m])%list → heap c' !! p = Some o → IsProjectContent o = true →
     IsValid (LightingGuid o) = true).
Proof.
  intros Hgen Hn St Hold p o Hp.
  assert (p ≠ m → p ∈ seen) as Hseen.
  { intros Hpm. apply elem_of_app in Hp as [?|Hp]; [done|].
    by apply list_elem_of_singleton in Hp. }
  destruct St as [om Hom Hinv Hwhy ->|om _ Hom Hinv Hown ->|om Hom Hval Hnone ->
                 |om r o' Hom Hval Hr Ho Hrm Hg ->]; simpl.
  - destruct (decide (p = m)) as [->|Hpm]; [|by apply Hold, Hseen].
    rewrite Hom. intros [= <-] Hown. destruct Hwhy; congruence.
  - destruct (decide (p = m)) as [->|Hpm].
    + rewrite lookup_insert_eq. intros [= <-] _. simpl. apply Hgen. lia.
    + rewrite lookup_insert_ne by done. by apply Hold, Hseen.
  - destruct (decide (p = m)) as [->|Hpm]; [|by apply Hold, Hseen].
    rewrite Hom. by intros [= <-] _.
  - destruct (IsProjectContent o') eqn:Hown', (IsProjectContent om) eqn:Hown; simpl.
    + destruct (decide (p = m)) as [->|Hpm].
      * rewrite lookup_insert_eq. intros [= <-] _. simpl. apply Hgen. lia.
      * rewrite lookup_insert_ne by done. destruct (decide (p = r)) as [->|Hpr].
        -- rewrite lookup_insert_eq. intros [= <-] _. simpl. apply Hgen. lia.
        -- rewrite lookup_insert_ne by done. by apply Hold, Hseen.
    + destruct (decide (p = r)) as [->|Hpr].
      * rewrite lookup_insert_eq. intros [= <-] _. simpl. apply Hgen. lia.
      * rewrite lookup_insert_ne by done.
        destruct (decide (p = m)) as [->|Hpm]; [|by apply Hold, Hseen].
        rewrite Hom. intros [= <-]. congruence.
    + destruct (decide (p = m)) as [->|Hpm].
      * rewrite lookup_insert_eq. intros [= <-] _. simpl. apply Hgen. lia.
      * rewrite lookup_insert_ne by done. by apply Hold, Hseen.
    + destruct (decide (p = m)) as [->|Hpm]; [|by apply Hold, Hseen].
      rewrite Hom. intros [= <-]. congruence.
Qed.

Lemma scan_valid_seen h0 n0 :
  (∀ i, n0 ≤ i → IsValid (NewGuid i) = true) →
  ∀ it seen s s', NoDup (seen ++ it) → Inv false h0 n0 seen (core s) →
    (∀ p o, p ∈ seen → heap (core s) !! p = Some o → IsProjectContent o = true →
       IsValid (LightingGuid o) = true) →
    TObjectIterator FixMaterialGuids_body it s = Some s' →
    (∀ p o, p ∈ (seen ++ it)%list → heap (core s') !! p = Some o →
       IsProjectContent o = true → IsValid (LightingGuid o) = true).
Proof.
  intros Hgen. induction it as [|m it IH]; intros seen s s' Hnd I Hold Hs; simplify_eq/=.
  - by rewrite app_nil_r.
  - destruct (FixMaterialGuids_body m s) as [s1|] eqn:H1; simplify_eq/=.
    change (m :: it) with ([m] ++ it)%list in Hnd |- *.
    rewrite (assoc_L app seen [m] it) in Hnd |- *.
    assert (m ∉ seen) as Hm.
    { apply NoDup_app in Hnd as [Hnd _]. apply NoDup_app in Hnd as (_ & Hnd & _).
      intros Hin. apply (Hnd m Hin). by apply list_elem_of_singleton. }
    destruct (steps_inv _ _ _ _ _ _ _ _ FixMaterialGuids_body_steps I Hm H1) as [St I1].
    apply (IH (seen ++ [m])%list s1 s'); [done|done| |done].
    apply (Step_valid_seen n0 seen m (core s) (core s1)); [done| |done|done].
    apply (inv_drawn _ _ _ _ _ I).
Qed.

(** When every enumerated material belongs to the project (each enumerated
    once; the identifiers of the generator valid, pairwise distinct and held
    by no object), a second run of [FixMaterialGuids] on the result of the
    first changes nothing and says that no duplicate was found. *)
Theorem FixMaterialGuids_twice_on_project it w w1 text :
  NoDup it → Fresh w →
  (∀ i, NewGuidCalls w ≤ i → IsValid (NewGuid i) = true) →
  (∀ p, p ∈ it → ShouldModify w p = Some true) →
  FixMaterialGuids it w = Some (w1, text) →
  FixMaterialGuids it w1 = Some (w1, "No duplicate material GUIDs found.").
Proof.
  intros Hnd Hw Hgen Hproject Hrun. unfold FixMaterialGuids in Hrun.
  destruct (TObjectIterator _ _ _) as [s|] eqn:Hs; simplify_eq/=.
  pose proof (pass_inv _ _ _ _ _ FixMaterialGuids_body_steps Hnd Hw Hs) as I.
  pose proof (scan_valid_seen (objects w) (NewGuidCalls w) Hgen it [] (start w) s
                Hnd (Inv_start false w Hw)) as Hvalid.
  assert (∀ p, p ∈ it → ∃ o, objects (world s) !! p = Some o ∧ IsProjectContent o = true)
    as Hown.
  { intros p Hp. destruct (ShouldModify_true _ _ (Hproject p Hp)) as (o0 & Ho0 & Hown0).
    pose proof (inv_paths _ _ _ _ _ I p) as Hpath. simpl in Hpath. rewrite Ho0 in Hpath.
    destruct (objects (world s) !! p) as [o|]; [|done].
    exists o. split; [done|]. unfold IsProjectContent in *.
    simpl in Hpath. injection Hpath as ->. done. }
  apply FixMaterialGuids_clean; [done| |].
  - intros p Hp. destruct (Hown p Hp) as (o & Ho & Hpo).
    exists (LightingGuid o). split; [by apply GetLightingGuid_live|].
    apply (Hvalid ltac:(by intros ? ? ?%not_elem_of_nil) Hs p o); done.
  - intros p q Hp Hq E.
    destruct (Hown p Hp) as (o & Ho & Hpo). destruct (Hown q Hq) as (o' & Ho' & Hqo).
    rewrite (GetLightingGuid_live _ _ _ Ho), (GetLightingGuid_live _ _ _ Ho') in E.
    injection E as E.
    pose proof (inv_entered _ _ _ _ _ I p o Hp Ho Hpo) as Ep.
    pose proof (inv_entered _ _ _ _ _ I q o' Hq Ho' Hqo) as Eq.
    rewrite E in Ep. rewrite Ep in Eq by done. by injection Eq; [|done].
Qed.

(** ** The writes of a run *)

Lemma count_lines_app v l1 l2 :
  count_lines v (l1 ++ l2)%list = count_lines v l1 + count_lines v l2.
Proof. unfold count_lines. by rewrite filter_app, length_app. Qed.

Lemma count_lines_one v v' line :
  count_lines v [(v', line)] = if bool_decide (v' = v) then 1 else 0.
Proof.
  unfold count_lines. rewrite filter_cons, filter_nil. simpl.
  case_decide; by case_bool_decide.
Qed.

Lemma Event_log unreported x y :
  Event unreported x y →
  ∃ v line, LogTemp y.1 = (LogTemp x.1 ++ [(v, line)])%list ∧
    NewGuidCalls y.1 = NewGuidCalls x.1 + count_lines Display [(v, line)] ∧
    bHasWarnings y.2 = bHasWarnings x.2 || bool_decide (v = Warning) ∧
    (bMadeChanges x.2 = true → bMadeChanges y.2 = true) ∧
    (bMadeChanges y.2 = true → bMadeChanges x.2 = true ∨ v = Display) ∧
    (unreported = false → v = Display → bMadeChanges y.2 = true).
Proof.
  intros [w f p o line Hp Ho|w f p o line Hq Hp Ho|w f line];
    [exists Display, (PathName o +:+ line)..|exists Warning, line];
    rewrite count_lines_one; simpl.
  - split_and!; [done|lia|by destruct (bHasWarnings f)|done|auto|done].
  - split_and!; [done|lia|by destruct (bHasWarnings f)|done|auto|congruence].
  - split_and!; [done|lia|by destruct (bHasWarnings f)|done|auto|done].
Qed.

Lemma Events_log unreported x y :
  rtc (Event unreported) x y →
  ∃ lines, LogTemp y.1 = (LogTemp x.1 ++ lines)%list ∧
    NewGuidCalls y.1 = NewGuidCalls x.1 + count_lines Display lines ∧
    bHasWarnings y.2 = bHasWarnings x.2 || bool_decide (0 < count_lines Warning lines) ∧
    (bMadeChanges x.2 = true → bMadeChanges y.2 = true) ∧
    (bMadeChanges y.2 = true → bMadeChanges x.2 = true ∨ 0 < count_lines Display lines) ∧
    (unreported = false → 0 < count_lines Display lines → bMadeChanges y.2 = true).
Proof.
  revert y. apply rtc_ind_r.
  - exists []. rewrite app_nil_r. unfold count_lines. simpl.
    split_and!; [done|lia|by destruct (bHasWarnings x.2)|done|auto|lia].
  - intros y z _ (v & line & Hlog' & Hn' & Hw' & Hm1' & Hm2' & Hm3')%Event_log
      (lines & Hlog & Hn & Hw & Hm1 & Hm2 & Hm3).
    exists (lines ++ [(v, line)])%list.
    rewrite !count_lines_app, Hlog', Hlog, Hn', Hn, Hw', Hw.
    rewrite !count_lines_one in *.
    split_and!.
    + by rewrite (assoc_L app).
    + lia.
    + destruct (bHasWarnings x.2); [done|]. simpl.
      destruct v; simpl; repeat case_bool_decide; try done; lia.
    + auto.
    + intros [Hy|Hv]%Hm2'.
      * destruct (Hm2 Hy); [by left|right; lia].
      * right. rewrite Hv. simpl. lia.
    + intros Hq Hpos. destruct v; simpl in *.
      * by apply Hm3'.
      * apply Hm1', Hm3; [done|lia].
Qed.

Lemma same_or_renewed_refl n n' o : same_or_renewed n n' o o.
Proof. by left. Qed.

Lemma same_or_renewed_trans n1 n2 n3 o1 o2 o3 :
  n1 ≤ n2 → n2 ≤ n3 →
  same_or_renewed n1 n2 o1 o2 → same_or_renewed n2 n3 o2 o3 →
  same_or_renewed n1 n3 o1 o3.
Proof.
  intros H12 H23 [->|(Hown & i & Hi & ->)] [->|(Hown' & j & Hj & ->)].
  - by left.
  - right. split; [done|]. exists j. split; [lia|done].
  - right. split; [done|]. exists i. split; [lia|done].
  - right. split; [done|]. exists j. split; [lia|done].
Qed.

Lemma Event_objects unreported x y p :
  Event unreported x y →
  option_Forall2 (same_or_renewed (NewGuidCalls x.1) (NewGuidCalls y.1))
    (objects x.1 !! p) (objects y.1 !! p).
Proof.
  assert (∀ w q o line, objects w !! q = Some o → IsProjectContent o = true →
    option_Forall2 (same_or_renewed (NewGuidCalls w) (NewGuidCalls (fixed q o line w)))
      (objects w !! p) (objects (fixed q o line w) !! p)) as Hfixed.
  { intros w q o line Hq Ho. simpl. destruct (decide (q = p)) as [<-|Hne].
    - rewrite lookup_insert_eq, Hq. constructor. right. split; [done|].
      exists (NewGuidCalls w). split; [lia|done].
    - rewrite lookup_insert_ne by done.
      destruct (objects w !! p); constructor. by left. }
  intros [w f q o line Hq Ho|w f q o line _ Hq Ho|w f line]; simpl fst.
  - by apply Hfixed.
  - by apply Hfixed.
  - simpl. destruct (objects w !! p); constructor. by left.
Qed.

Lemma Events_objects unreported x y p :
  rtc (Event unreported) x y →
  option_Forall2 (same_or_renewed (NewGuidCalls x.1) (NewGuidCalls y.1))
    (objects x.1 !! p) (objects y.1 !! p).
Proof.
  revert y. apply rtc_ind_r.
  - destruct (objects x.1 !! p); constructor. by left.
  - intros y z Hxy Hyz IH.
    destruct (Events_log _ _ _ Hxy) as (l1 & _ & Hn1 & _).
    destruct (Events_log _ _ _ (rtc_once _ _ Hyz)) as (l2 & _ & Hn2 & _).
    pose proof (Event_objects _ _ _ p Hyz) as Hstep.
    destruct IH as [o1 o2 H12|]; inversion Hstep as [o2' o3 H23|]; simplify_eq;
      constructor.
    eapply same_or_renewed_trans; [| |done|done]; lia.
Qed.

(** Each piece of a body is a sequence of writes. *)
Lemma incumbent_of_events line m r g s x :
  incumbent_of line m r g s = Some x →
  rtc (Event true) (world s, flags s) (world x.1, flags x.1).
Proof.
  unfold incumbent_of. intros H.
  destruct (objects (world s) !! r) as [o|] eqn:Hr; simplify_eq/=.
  destruct (objects (world s) !! m) as [om|] eqn:Hm; simplify_eq/=.
  case_bool_decide; simpl; [|done].
  destruct (IsProjectContent o) eqn:Ho; simpl; [|done].
  apply rtc_once. by apply event_fixed_unreported.
Qed.

Lemma current_of_events line m x y :
  current_of line m x = Some y →
  rtc (Event true) (world x.1, flags x.1) (world y.1, flags y.1).
Proof.
  unfold current_of. intros H.
  destruct (objects (world x.1) !! m) as [om|] eqn:Hm; simplify_eq/=.
  destruct (IsProjectContent om) eqn:Ho; simpl; [|done].
  apply rtc_once. by apply event_fixed.
Qed.

Lemma unresolved_of_events mid tail m r x s' :
  unresolved_of mid tail m r x = Some s' →
  rtc (Event true) (world x.1, flags x.1) (world s', flags s').
Proof.
  unfold unresolved_of. intros H. destruct x.2; simplify_eq/=; [done|].
  destruct (objects (world x.1) !! m); simplify_eq/=.
  destruct (objects (world x.1) !! r); simplify_eq/=.
  apply rtc_once. apply event_warned.
Qed.

Lemma lookup_of_events line mid tail m s s' :
  lookup_of line mid tail m s = Some s' →
  rtc (Event true) (world s, flags s) (world s', flags s').
Proof.
  unfold lookup_of. intros H.
  destruct (objects (world s) !! m) as [om|]; simplify_eq/=.
  destruct (Guids s !! LightingGuid om) as [r|]; simplify_eq/=; [|done].
  destruct (incumbent_of _ _ _ _ _) as [x|] eqn:Hx; simplify_eq/=.
  destruct (current_of _ _ _) as [y|] eqn:Hy; simplify_eq/=.
  etrans; [by eapply incumbent_of_events|].
  etrans; [by eapply current_of_events|].
  by eapply unresolved_of_events.
Qed.

Lemma FixMaterialGuids_body_events m s s' :
  FixMaterialGuids_body m s = Some s' →
  rtc (Event true) (world s, flags s) (world s', flags s').
Proof.
  rewrite FixMaterialGuids_body_eq. intros H.
  destruct (objects (world s) !! m) as [om|] eqn:Hm; simplify_eq/=.
  rewrite !FixMaterialGuids_lookup_eq in H.
  destruct (IsValid _); [by eapply lookup_of_events|].
  destruct (IsProjectContent om) eqn:Ho; simplify_eq/=.
  - eapply rtc_l; [|by eapply lookup_of_events]. by apply event_fixed.
  - apply rtc_once. apply event_warned.
Qed.

Lemma FixTextureGuids_body_events m s s' :
  FixTextureGuids_body m s = Some s' →
  rtc (Event true) (world s, flags s) (world s', flags s').
Proof.
  rewrite FixTextureGuids_body_eq. intros H.
  destruct (objects (world s) !! m) as [om|] eqn:Hm; simplify_eq/=.
  rewrite !FixTextureGuids_lookup_eq in H.
  destruct (IsValid _); [by eapply lookup_of_events|].
  simplify_eq/=. apply rtc_once. apply event_warned.
Qed.

Lemma FixEmptyTextureGuids_body_events m s s' :
  FixEmptyTextureGuids_body m s = Some s' → rtc (Event false) s s'.
Proof.
  rewrite FixEmptyTextureGuids_body_eq. destruct s as [w f]. simpl. intros H.
  destruct (objects w !! m) as [om|] eqn:Hm; simplify_eq/=.
  destruct (IsValid (LightingGuid om)); [done|].
  destruct (IsProjectContent om) eqn:Ho; apply rtc_once.
  - by apply event_fixed.
  - apply event_warned.
Qed.

Lemma TObjectIterator_events {S} (body : nat → S → option S) (view : S → World * Flags)
    unreported it :
  (∀ p s s', body p s = Some s' → rtc (Event unreported) (view s) (view s')) →
  ∀ s s', TObjectIterator body it s = Some s' → rtc (Event unreported) (view s) (view s').
Proof.
  intros Hbody. induction it as [|p it IH]; intros s s' H; simplify_eq/=; [done|].
  destruct (body p s) as [s1|] eqn:H1; simplify_eq/=.
  etrans; eauto.
Qed.

Lemma FixMaterialGuids_events it w w' text :
  FixMaterialGuids it w = Some (w', text) →
  ∃ f, rtc (Event true) (w, no_flags) (w', f) ∧ text = MaterialDialogText f.
Proof.
  unfold FixMaterialGuids. intros H.
  destruct (TObjectIterator _ _ _) as [s|] eqn:Hs; simplify_eq/=.
  exists (flags s). split; [|done].
  apply (TObjectIterator_events _ (λ s, (world s, flags s)) _ _
           FixMaterialGuids_body_events _ _ Hs).
Qed.

Lemma FixTextureGuids_events it w w' text :
  FixTextureGuids it w = Some (w', text) →
  ∃ f, rtc (Event true) (w, no_flags) (w', f) ∧ text = TextureDialogText f.
Proof.
  unfold FixTextureGuids. intros H.
  destruct (TObjectIterator _ _ _) as [s|] eqn:Hs; simplify_eq/=.
  exists (flags s). split; [|done].
  apply (TObjectIterator_events _ (λ s, (world s, flags s)) _ _
           FixTextureGuids_body_events _ _ Hs).
Qed.

Lemma FixEmptyTextureGuids_events it w w' text :
  FixEmptyTextureGuids it w = Some (w', text) →
  ∃ f, rtc (Event false) (w, no_flags) (w', f) ∧ text = EmptyTextureDialogText f.
Proof.
  unfold FixEmptyTextureGuids. intros H.
  destruct (TObjectIterator _ _ _) as [[w1 f]|] eqn:Hs; simplify_eq/=.
  exists f. split; [|done].
  apply (TObjectIterator_events _ id _ _ FixEmptyTextureGuids_body_events _ _ Hs).
Qed.

Lemma Events_accounted unreported x y :
  rtc (Event unreported) x y → accounted x.1 y.1.
Proof.
  intros H. destruct (Events_log _ _ _ H) as (lines & Hlog & Hn & _).
  exists lines. split_and!; [done|done|]. intros p. by eapply Events_objects.
Qed.

(** What the passes write. A run of any of the three passes only appends to
    the log; it draws as many identifiers as it appends [Display] lines; and
    every object is after the run the object it was before, or it belongs to
    the project, has its path, is marked dirty and holds one of the
    identifiers drawn during the run. *)
Theorem passes_account_for_writes it w :
  (∀ w' text, FixMaterialGuids it w = Some (w', text) → accounted w w') ∧
  (∀ w' text, FixTextureGuids it w = Some (w', text) → accounted w w') ∧
  (∀ w' text, FixEmptyTextureGuids it w = Some (w', text) → accounted w w').
Proof.
  split_and!; intros w' text H.
  - apply FixMaterialGuids_events in H as (f & H & _).
    apply (Events_accounted _ _ _ H).
  - apply FixTextureGuids_events in H as (f & H & _).
    apply (Events_accounted _ _ _ H).
  - apply FixEmptyTextureGuids_events in H as (f & H & _).
    apply (Events_accounted _ _ _ H).
Qed.

(** The dialog and the log. In each pass the dialog reports unresolvable
    issues exactly when the run appended a [Warning] line to the log, and it
    reports a change only when the run appended a [Display] line, that is,
    drew an identifier; in [FixEmptyTextureGuids] it reports a change exactly
    then. *)
Theorem dialog_agrees_with_log it w :
  (∀ w' text, FixMaterialGuids it w = Some (w', text) →
     ∃ lines f, LogTemp w' = (LogTemp w ++ lines)%list ∧ text = MaterialDialogText f ∧
       bHasWarnings f = bool_decide (0 < count_lines Warning lines) ∧
       (bMadeChanges f = true → 0 < count_lines Display lines)) ∧
  (∀ w' text, FixTextureGuids it w = Some (w', text) →
     ∃ lines f, LogTemp w' = (LogTemp w ++ lines)%list ∧ text = TextureDialogText f ∧
       bHasWarnings f = bool_decide (0 < count_lines Warning lines) ∧
       (bMadeChanges f = true → 0 < count_lines Display lines)) ∧
  (∀ w' text, FixEmptyTextureGuids it w = Some (w', text) →
     ∃ lines f, LogTemp w' = (LogTemp w ++ lines)%list ∧ text = EmptyTextureDialogText f ∧
       bHasWarnings f = bool_decide (0 < count_lines Warning lines) ∧
       bMadeChanges f = bool_decide (0 < count_lines Display lines)).
Proof.
  split_and!; intros w' text H.
  - apply FixMaterialGuids_events in H as (f & H & ->).
    destruct (Events_log _ _ _ H) as (lines & Hlog & _ & Hw & _ & Hm & _).
    exists lines, f. split_and!; [done|done|done|].
    intros [?|?]%Hm; done.
  - apply FixTextureGuids_events in H as (f & H & ->).
    destruct (Events_log _ _ _ H) as (lines & Hlog & _ & Hw & _ & Hm & _).
    exists lines, f. split_and!; [done|done|done|].
    intros [?|?]%Hm; done.
  - apply FixEmptyTextureGuids_events in H as (f & H & ->).
    destruct (Events_log _ _ _ H) as (lines & Hlog & _ & Hw & _ & Hm & Hm').
    exists lines, f. split_and!; [done|done|done|].
    simpl in *. destruct (decide (0 < count_lines Display lines)) as [Hpos|Hpos].
    + rewrite (bool_decide_eq_true_2 _ Hpos). by apply Hm'.
    + rewrite (bool_decide_eq_false_2 _ Hpos).
      destruct (bMadeChanges f) eqn:Hf; [|done].
      destruct (Hm eq_refl) as [?|?]; done.
Qed.

(** ** Objects of the project after a repair *)

Lemma Events_calls unreported x y :
  rtc (Event unreported) x y → NewGuidCalls x.1 ≤ NewGuidCalls y.1.
Proof. intros (lines & _ & -> & _)%Events_log. lia. Qed.

Lemma Events_forward unreported x y p o :
  rtc (Event unreported) x y → objects x.1 !! p = Some o →
  ∃ o', objects y.1 !! p = Some o' ∧
    same_or_renewed (NewGuidCalls x.1) (NewGuidCalls y.1) o o'.
Proof.
  intros H Ho. pose proof (Events_objects _ _ _ p H) as Hp. rewrite Ho in Hp.
  destruct (objects y.1 !! p) as [o'|]; inversion Hp; simplify_eq. eauto.
Qed.

Lemma Events_backward unreported x y p o' :
  rtc (Event unreported) x y → objects y.1 !! p = Some o' →
  ∃ o, objects x.1 !! p = Some o ∧
    same_or_renewed (NewGuidCalls x.1) (NewGuidCalls y.1) o o'.
Proof.
  intros H Ho. pose proof (Events_objects _ _ _ p H) as Hp. rewrite Ho in Hp.
  destruct (objects x.1 !! p) as [o|]; inversion Hp; simplify_eq. eauto.
Qed.

Lemma same_or_renewed_valid n n' o o' :
  (∀ i, n ≤ i → IsValid (NewGuid i) = true) →
  same_or_renewed n n' o o' →
  IsValid (LightingGuid o) = true → IsValid (LightingGuid o') = true.
Proof.
  intros Hgen [->|(_ & i & Hi & ->)] Hval; [done|]. simpl. apply Hgen. lia.
Qed.

Lemma same_or_renewed_own n n' o o' :
  same_or_renewed n n' o o' → IsProjectContent o' = IsProjectContent o.
Proof. by intros [->|(_ & i & Hi & ->)]. Qed.

Lemma FixMaterialGuids_body_repaired m s s' :
  FixMaterialGuids_body m s = Some s' →
  (∀ i, NewGuidCalls (world s) ≤ i → IsValid (NewGuid i) = true) →
  ∃ o', objects (world s') !! m = Some o' ∧
    (IsProjectContent o' = true → IsValid (LightingGuid o') = true).
Proof.
  rewrite FixMaterialGuids_body_eq. intros H Hgen.
  destruct (objects (world s) !! m) as [om|] eqn:Hm; simplify_eq/=.
  rewrite !FixMaterialGuids_lookup_eq in H.
  destruct (IsValid _) eqn:Hval.
  - apply lookup_of_events in H.
    destruct (Events_forward _ _ _ m om H Hm) as (o' & Ho' & Hrel).
    exists o'. split; [done|]. intros _. by eapply same_or_renewed_valid.
  - destruct (IsProjectContent om) eqn:Ho; simplify_eq/=.
    + apply lookup_of_events in H.
      destruct (Events_forward _ _ _ m (renew (NewGuid (NewGuidCalls (world s))) om) H)
        as (o' & Ho' & Hrel); [simpl; by rewrite lookup_insert_eq|].
      exists o'. split; [done|]. intros _.
      eapply same_or_renewed_valid; [|done|].
      * intros i Hi. apply Hgen. simpl in Hi. lia.
      * simpl. by apply Hgen.
    + exists om. split; [done|]. congruence.
Qed.

Lemma FixEmptyTextureGuids_body_repaired m s s' :
  FixEmptyTextureGuids_body m s = Some s' →
  (∀ i, NewGuidCalls s.1 ≤ i → IsValid (NewGuid i) = true) →
  ∃ o', objects s'.1 !! m = Some o' ∧
    (IsProjectContent o' = true → IsValid (LightingGuid o') = true).
Proof.
  rewrite FixEmptyTextureGuids_body_eq. destruct s as [w f]. simpl. intros H Hgen.
  destruct (objects w !! m) as [om|] eqn:Hm; simplify_eq/=.
  destruct (IsValid (LightingGuid om)) eqn:Hval; [by eauto|].
  destruct (IsProjectContent om) eqn:Ho; simpl.
  - rewrite lookup_insert_eq. eexists. split; [done|]. intros _. simpl. by apply Hgen.
  - exists om. split; [done|]. congruence.
Qed.

Lemma scan_repaired {S} (body : nat → S → option S) (view : S → World * Flags)
    unreported :
  (∀ p s s', body p s = Some s' → rtc (Event unreported) (view s) (view s')) →
  (∀ p s s', body p s = Some s' →
     (∀ i, NewGuidCalls (view s).1 ≤ i → IsValid (NewGuid i) = true) →
     ∃ o', objects (view s').1 !! p = Some o' ∧
       (IsProjectContent o' = true → IsValid (LightingGuid o') = true)) →
  ∀ it s s', (∀ i, NewGuidCalls (view s).1 ≤ i → IsValid (NewGuid i) = true) →
    TObjectIterator body it s = Some s' →
    ∀ p, p ∈ it → ∃ o', objects (view s').1 !! p = Some o' ∧
      (IsProjectContent o' = true → IsValid (LightingGuid o') = true).
Proof.
  intros Hev Hbody. induction it as [|m it IH]; intros s s' Hgen Hs p Hp; simplify_eq/=.
  { by apply not_elem_of_nil in Hp. }
  destruct (body m s) as [s1|] eqn:H1; simplify_eq/=.
  pose proof (Events_calls _ _ _ (Hev _ _ _ H1)) as Hn.
  assert (∀ i, NewGuidCalls (view s1).1 ≤ i → IsValid (NewGuid i) = true) as Hgen1.
  { intros i Hi. apply Hgen. lia. }
  apply elem_of_cons in Hp as [->|Hp]; [|by eapply IH].
  destruct (Hbody _ _ _ H1 Hgen) as (o1 & Ho1 & Hv1).
  pose proof (TObjectIterator_events body view _ it Hev _ _ Hs) as Hrest.
  destruct (Events_forward _ _ _ m o1 Hrest Ho1) as (o' & Ho' & Hrel).
  exists o'. split; [done|]. intros Hown.
  eapply same_or_renewed_valid; [done|done|].
  apply Hv1. by rewrite <-(same_or_renewed_own _ _ _ _ Hrel).
Qed.

(** After a run of [FixMaterialGuids] or of [FixEmptyTextureGuids] with a
    generator that returns valid identifiers, every enumerated object that
    passes [ShouldModify] holds a valid identifier, whatever the enumeration
    and the identifiers of the other objects are. *)
Theorem repaired_objects_are_valid it w :
  (∀ i, NewGuidCalls w ≤ i → IsValid (NewGuid i) = true) →
  (∀ w' text p, FixMaterialGuids it w = Some (w', text) → p ∈ it →
     ShouldModify w' p = Some true →
     ∃ g, GetLightingGuid w' p = Some g ∧ IsValid g = true) ∧
  (∀ w' text p, FixEmptyTextureGuids it w = Some (w', text) → p ∈ it →
     ShouldModify w' p = Some true →
     ∃ g, GetLightingGuid w' p = Some g ∧ IsValid g = true).
Proof.
  intros Hgen. split; intros w' text p Hrun Hp (o & Ho & Hown)%ShouldModify_true.
  - unfold FixMaterialGuids in Hrun.
    destruct (TObjectIterator _ _ _) as [s|] eqn:Hs; simplify_eq/=.
    destruct (scan_repaired FixMaterialGuids_body (λ s, (world s, flags s)) true
                FixMaterialGuids_body_events FixMaterialGuids_body_repaired
                it (start w) s Hgen Hs p Hp) as (o' & Ho' & Hval).
    simpl in Ho'. assert (o' = o) as -> by congruence.
    exists (LightingGuid o). split; [by apply GetLightingGuid_live|by apply Hval].
  - unfold FixEmptyTextureGuids in Hrun.
    destruct (TObjectIterator _ _ _) as [s|] eqn:Hs; simplify_eq/=.
    destruct (scan_repaired FixEmptyTextureGuids_body id false
                FixEmptyTextureGuids_body_events FixEmptyTextureGuids_body_repaired
                it (w, no_flags) s Hgen Hs p Hp) as (o' & Ho' & Hval).
    simpl in Ho'. assert (o' = o) as -> by congruence.
    exists (LightingGuid o). split; [by apply GetLightingGuid_live|by apply Hval].
Qed.

(** ** The dialog of [FixEmptyTextureGuids] *)

Lemma Events_unrepairable unreported x y p :
  rtc (Event unreported) x y → unrepairable y.1 p = unrepairable x.1 p.
Proof.
  intros H. pose proof (Events_objects _ _ _ p H) as Hp. unfold unrepairable.
  destruct Hp as [o o' [->|(Hown & i & Hi & ->)]|]; [done| |done].
  unfold IsProjectContent in *. simpl. by rewrite Hown, !andb_false_r.
Qed.

Lemma existsb_pointwise {A} (f g : A → bool) l :
  (∀ x, f x = g x) → existsb f l = existsb g l.
Proof. intros E. induction l as [|x l IH]; simpl; [done|]. by rewrite E, IH. Qed.

Lemma FixEmptyTextureGuids_scan_flags it :
  ∀ w f w' f', TObjectIterator FixEmptyTextureGuids_body it (w, f) = Some (w', f') →
    bMadeChanges f' = bMadeChanges f || existsb (repairable w) it ∧
    bHasWarnings f' = bHasWarnings f || existsb (unrepairable w) it.
Proof.
  induction it as [|m it IH]; intros w f w' f' H; simplify_eq/=.
  { by rewrite !orb_false_r. }
  destruct (FixEmptyTextureGuids_body m (w, f)) as [[w1 f1]|] eqn:H1; simplify_eq/=.
  destruct (IH _ _ _ _ H) as [Hm Hw]. rewrite Hm, Hw.
  rewrite (existsb_pointwise (unrepairable w1) (unrepairable w));
    [|intros p; apply (Events_unrepairable false (w, f) (w1, f1)),
        (FixEmptyTextureGuids_body_events m _ _ H1)].
  rewrite FixEmptyTextureGuids_body_eq in H1. simpl in H1.
  destruct (objects w !! m) as [om|] eqn:Ho; [|done].
  assert (repairable w m = negb (IsValid (LightingGuid om)) && IsProjectContent om)
    as -> by (unfold repairable; by rewrite Ho).
  assert (unrepairable w m = negb (IsValid (LightingGuid om)) && negb (IsProjectContent om))
    as -> by (unfold unrepairable; by rewrite Ho).
  simpl in H1.
  destruct (IsValid (LightingGuid om)), (IsProjectContent om); simplify_eq; simpl;
    by rewrite ?orb_true_r.
Qed.

Lemma FixEmptyTextureGuids_settled it :
  ∀ v f, (∀ p, p ∈ it → is_Some (objects v !! p) ∧ repairable v p = false) →
    ∃ v', TObjectIterator FixEmptyTextureGuids_body it (v, f) =
            Some (v', {| bMadeChanges := bMadeChanges f;
                         bHasWarnings := bHasWarnings f || existsb (unrepairable v) it |}) ∧
      objects v' = objects v ∧ NewGuidCalls v' = NewGuidCalls v.
Proof.
  induction it as [|m it IH]; intros v f Hit; simpl.
  { exists v. rewrite orb_false_r. by destruct f. }
  destruct (Hit m) as [[om Hom] Hrep]; [by left|].
  rewrite FixEmptyTextureGuids_body_eq. simpl. rewrite Hom. simpl.
  unfold repairable in Hrep. rewrite Hom in Hrep.
  assert (unrepairable v m = negb (IsValid (LightingGuid om)) && negb (IsProjectContent om))
    as -> by (unfold unrepairable; by rewrite Hom).
  destruct (IsValid (LightingGuid om)) eqn:Hval; simpl in Hrep |- *.
  - apply IH. intros p Hp. apply Hit. by right.
  - rewrite Hrep. simpl.
    destruct (IH (UE_LOG Warning (PathName om +:+ ": Texture has invalid GUID but is specified not to be modified. @see FGuidFixerModule::ShouldModify()") v) (set_bHasWarnings f))
      as (v' & Hrun & Hobj & Hn).
    { intros p Hp. apply (Hit p). by right. }
    exists v'. split; [|done]. rewrite Hrun. simpl. by rewrite orb_true_r.
Qed.

(** The dialog of [FixEmptyTextureGuids] is a function of the host before the
    run: it reports a change exactly when some enumerated texture without
    valid identifier belongs to the project, and unresolvable issues exactly
    when some enumerated texture without valid identifier does not, in
    whatever order the textures are enumerated. *)
Theorem FixEmptyTextureGuids_dialog_of_host it w w' text :
  FixEmptyTextureGuids it w = Some (w', text) →
  text = EmptyTextureDialogText {| bMadeChanges := existsb (repairable w) it;
                                   bHasWarnings := existsb (unrepairable w) it |}.
Proof.
  unfold FixEmptyTextureGuids. intros H.
  destruct (TObjectIterator _ _ _) as [[w1 f]|] eqn:Hs; simplify_eq/=.
  destruct (FixEmptyTextureGuids_scan_flags _ _ _ _ _ Hs) as [Hm Hw].
  destruct f as [made warns]. simpl in *. by rewrite Hm, Hw.
Qed.

(** A second run of [FixEmptyTextureGuids] on the result of a first, with a
    generator that returns valid identifiers: it assigns no identifier and
    changes no object, it reports no change, and it reports unresolvable
    issues exactly when the first run had some. *)
Theorem FixEmptyTextureGuids_twice it w w1 text :
  (∀ i, NewGuidCalls w ≤ i → IsValid (NewGuid i) = true) →
  FixEmptyTextureGuids it w = Some (w1, text) →
  ∃ w2 warns,
    text = EmptyTextureDialogText {| bMadeChanges := existsb (repairable w) it;
                                     bHasWarnings := warns |} ∧
    FixEmptyTextureGuids it w1 =
      Some (w2, EmptyTextureDialogText {| bMadeChanges := false; bHasWarnings := warns |}) ∧
    objects w2 = objects w1 ∧ NewGuidCalls w2 = NewGuidCalls w1.
Proof.
  unfold FixEmptyTextureGuids at 1. intros Hgen H.
  destruct (TObjectIterator _ _ _) as [[w' f]|] eqn:Hs; simplify_eq/=.
  destruct (FixEmptyTextureGuids_settled it w1 no_flags) as (w2 & Hrun & Hobj & Hn).
  { intros p Hp.
    destruct (scan_repaired FixEmptyTextureGuids_body id false
                FixEmptyTextureGuids_body_events FixEmptyTextureGuids_body_repaired
                it (w, no_flags) (w1, f) Hgen Hs p Hp) as (o' & Ho' & Hval).
    simpl in Ho'. split; [by eexists|]. unfold repairable. rewrite Ho'.
    destruct (IsProjectContent o'); [|by rewrite andb_false_r].
    by rewrite Hval. }
  destruct (FixEmptyTextureGuids_scan_flags _ _ _ _ _ Hs) as [Hm Hw].
  pose proof (TObjectIterator_events FixEmptyTextureGuids_body id false it
                FixEmptyTextureGuids_body_events _ _ Hs) as Hev.
  exists w2, (existsb (unrepairable w) it). split_and!; [|
    |done|done].
  - destruct f as [made warns]. simpl in *. by rewrite Hm, Hw.
  - unfold FixEmptyTextureGuids. rewrite Hrun. simpl.
    by rewrite (existsb_pointwise (unrepairable w1) (unrepairable w));
      [|intros p; apply (Events_unrepairable false (w, no_flags) (w1, f) p Hev)].
Qed.

(** ** The objects a pass can reach *)

Section Reach.

Context (P : ptr → Prop).

Lemma untouched_same w w' : objects w' = objects w → untouched P w w'.
Proof. intros E p _. by rewrite E. Qed.

Lemma untouched_trans w1 w2 w3 :
  untouched P w1 w2 → untouched P w2 w3 → untouched P w1 w3.
Proof. intros H12 H23 p Hp. by rewrite (H23 p Hp), (H12 p Hp). Qed.

Lemma untouched_fixed p o line w : P p → untouched P w (fixed p o line w).
Proof.
  intros Hp q Hq. simpl. rewrite lookup_insert_ne; [done|]. by intros ->.
Qed.

Lemma incumbent_of_within line m r g s x :
  incumbent_of line m r g s = Some x → within P s → P r →
  within P x.1 ∧ untouched P (world s) (world x.1).
Proof.
  unfold incumbent_of. intros H Hreg Hr.
  destruct (objects (world s) !! r) as [o|]; simplify_eq/=.
  destruct (objects (world s) !! m) as [om|]; simplify_eq/=.
  destruct (bool_decide _ && IsProjectContent o); simpl.
  - split; [|by apply untouched_fixed].
    intros k r'. simpl. intros [[_ <-]|[_ [_ Hk]%lookup_delete_Some]]%lookup_insert_Some;
      [done|by eapply Hreg].
  - split; [done|by apply untouched_same].
Qed.

Lemma current_of_within line m x y :
  current_of line m x = Some y → within P x.1 → P m →
  within P y.1 ∧ untouched P (world x.1) (world y.1).
Proof.
  unfold current_of. intros H Hreg Hm.
  destruct (objects (world x.1) !! m) as [om|]; simplify_eq/=.
  destruct (IsProjectContent om); simpl.
  - split; [|by apply untouched_fixed].
    intros k r'. simpl. intros [[_ <-]|[_ Hk]]%lookup_insert_Some; [done|by eapply Hreg].
  - split; [done|by apply untouched_same].
Qed.

Lemma unresolved_of_within mid tail m r x s' :
  unresolved_of mid tail m r x = Some s' → within P x.1 →
  within P s' ∧ untouched P (world x.1) (world s').
Proof.
  unfold unresolved_of. intros H Hreg. destruct x.2; simplify_eq/=.
  { split; [done|by apply untouched_same]. }
  destruct (objects (world x.1) !! m); simplify_eq/=.
  destruct (objects (world x.1) !! r); simplify_eq/=.
  split; [done|by apply untouched_same].
Qed.

Lemma lookup_of_within line mid tail m s s' :
  lookup_of line mid tail m s = Some s' → within P s → P m →
  within P s' ∧ untouched P (world s) (world s').
Proof.
  unfold lookup_of. intros H Hreg Hm.
  destruct (objects (world s) !! m) as [om|]; simplify_eq/=.
  destruct (Guids s !! LightingGuid om) as [r|] eqn:Hr; simplify_eq/=.
  - destruct (incumbent_of _ _ _ _ _) as [x|] eqn:Hx; simplify_eq/=.
    destruct (current_of _ _ _) as [y|] eqn:Hy; simplify_eq/=.
    destruct (incumbent_of_within _ _ _ _ _ _ Hx Hreg (Hreg _ _ Hr)) as [Hreg1 H1].
    destruct (current_of_within _ _ _ _ Hy Hreg1 Hm) as [Hreg2 H2].
    destruct (unresolved_of_within _ _ _ _ _ _ H Hreg2) as [Hreg3 H3].
    split; [done|]. eapply untouched_trans; [|done]. by eapply untouched_trans.
  - split; [|by apply untouched_same].
    intros k r'. simpl. intros [[_ <-]|[_ Hk]]%lookup_insert_Some; [done|by eapply Hreg].
Qed.

Lemma FixMaterialGuids_body_within m s s' :
  FixMaterialGuids_body m s = Some s' → within P s → P m →
  within P s' ∧ untouched P (world s) (world s').
Proof.
  rewrite FixMaterialGuids_body_eq. intros H Hreg Hm.
  destruct (objects (world s) !! m) as [om|]; simplify_eq/=.
  rewrite !FixMaterialGuids_lookup_eq in H.
  destruct (IsValid _); [by eapply lookup_of_within|].
  destruct (IsProjectContent om); simplify_eq/=.
  - destruct (lookup_of_within _ _ _ _ _ _ H) as [Hreg' H']; [done|done|].
    split; [done|]. eapply untouched_trans; [|done]. by apply untouched_fixed.
  - split; [done|by apply untouched_same].
Qed.

Lemma FixTextureGuids_body_within m s s' :
  FixTextureGuids_body m s = Some s' → within P s → P m →
  within P s' ∧ untouched P (world s) (world s').
Proof.
  rewrite FixTextureGuids_body_eq. intros H Hreg Hm.
  destruct (objects (world s) !! m) as [om|]; simplify_eq/=.
  rewrite !FixTextureGuids_lookup_eq in H.
  destruct (IsValid _); [by eapply lookup_of_within|].
  simplify_eq/=. split; [done|by apply untouched_same].
Qed.

Lemma FixEmptyTextureGuids_body_within m s s' :
  FixEmptyTextureGuids_body m s = Some s' → P m → untouched P s.1 s'.1.
Proof.
  rewrite FixEmptyTextureGuids_body_eq. destruct s as [w f]. simpl. intros H Hm.
  destruct (objects w !! m) as [om|]; simplify_eq/=.
  destruct (IsValid (LightingGuid om)); [by apply untouched_same|].
  destruct (IsProjectContent om); simpl;
    [by apply untouched_fixed|by apply untouched_same].
Qed.

Lemma scan_within {S} (body : nat → S → option S) (host : S → World) (I : S → Prop) :
  (∀ m s s', body m s = Some s' → I s → P m → I s' ∧ untouched P (host s) (host s')) →
  ∀ it s s', (∀ p, p ∈ it → P p) → I s → TObjectIterator body it s = Some s' →
    I s' ∧ untouched P (host s) (host s').
Proof.
  intros Hbody. induction it as [|m it IH]; intros s s' Hit Hs H; simplify_eq/=.
  { split; [done|by apply untouched_same]. }
  destruct (body m s) as [s1|] eqn:H1; simplify_eq/=.
  destruct (Hbody _ _ _ H1 Hs) as [Hs1 Hu1]; [apply Hit; by left|].
  destruct (IH s1 s') as [Hs' Hu']; [intros p Hp; apply Hit; by right|done|done|].
  split; [done|]. by eapply untouched_trans.
Qed.

End Reach.

Lemma within_start P w : within P (start w).
Proof. by intros k r. Qed.

(** A pass writes only objects that it enumerates: an object that the
    iterator does not yield is after the run the object it was, in each of
    the three passes; the registry of a collision pass never leads outside
    the enumeration. *)
Theorem only_enumerated_objects_are_written it w :
  (∀ w' text p, FixMaterialGuids it w = Some (w', text) → p ∉ it →
     objects w' !! p = objects w !! p) ∧
  (∀ w' text p, FixTextureGuids it w = Some (w', text) → p ∉ it →
     objects w' !! p = objects w !! p) ∧
  (∀ w' text p, FixEmptyTextureGuids it w = Some (w', text) → p ∉ it →
     objects w' !! p = objects w !! p).
Proof.
  split_and!; intros w' text p Hrun Hp.
  - unfold FixMaterialGuids in Hrun.
    destruct (TObjectIterator _ _ _) as [s|] eqn:Hs; simplify_eq/=.
    destruct (scan_within (.∈ it) FixMaterialGuids_body world (within (.∈ it))
                (FixMaterialGuids_body_within _) it (start w) s) as [_ Hu];
      [done|apply within_start|done|].
    by apply Hu.
  - unfold FixTextureGuids in Hrun.
    destruct (TObjectIterator _ _ _) as [s|] eqn:Hs; simplify_eq/=.
    destruct (scan_within (.∈ it) FixTextureGuids_body world (within (.∈ it))
                (FixTextureGuids_body_within _) it (start w) s) as [_ Hu];
      [done|apply within_start|done|].
    by apply Hu.
  - unfold FixEmptyTextureGuids in Hrun.
    destruct (TObjectIterator _ _ _) as [s|] eqn:Hs; simplify_eq/=.
    destruct (scan_within (.∈ it) FixEmptyTextureGuids_body fst (λ _, True)
                (λ m s s' H _ Hm, conj I (FixEmptyTextureGuids_body_within _ m s s' H Hm))
                it (w, no_flags) s) as [_ Hu]; [done|done|done|].
    by apply Hu.
Qed.

(** ** Objects that a pass cannot repair *)

Lemma Events_foreign unreported x y p o :
  rtc (Event unreported) x y → objects x.1 !! p = Some o →
  IsProjectContent o = false → objects y.1 !! p = Some o.
Proof.
  intros H Ho Hown. destruct (Events_forward _ _ _ _ _ H Ho) as (o' & Ho' & Hrel).
  destruct Hrel as [->|(Hown' & _)]; [done|congruence].
Qed.

Lemma Events_warned unreported x y :
  rtc (Event unreported) x y → bHasWarnings x.2 = true → bHasWarnings y.2 = true.
Proof. intros (lines & _ & _ & -> & _)%Events_log ->. done. Qed.

Lemma scan_reports {S} (body : nat → S → option S) (view : S → World * Flags)
    unreported m o :
  (∀ p s s', body p s = Some s' → rtc (Event unreported) (view s) (view s')) →
  (∀ s s', body m s = Some s' → objects (view s).1 !! m = Some o →
     bHasWarnings (view s').2 = true) →
  IsProjectContent o = false →
  ∀ it s s', objects (view s).1 !! m = Some o → TObjectIterator body it s = Some s' →
    m ∈ it ∨ bHasWarnings (view s).2 = true → bHasWarnings (view s').2 = true.
Proof.
  intros Hev Hbody Hown. induction it as [|p it IH]; intros s s' Ho H Hm; simplify_eq/=.
  { destruct Hm as [Hm|Hm]; [by apply not_elem_of_nil in Hm|done]. }
  destruct (body p s) as [s1|] eqn:H1; simplify_eq/=.
  apply (IH s1 s'); [by apply (Events_foreign _ _ _ _ _ (Hev _ _ _ H1))|done|].
  destruct Hm as [[->|Hm]%elem_of_cons|Hm].
  - right. by eapply Hbody.
  - by left.
  - right. by apply (Events_warned _ _ _ (Hev _ _ _ H1)).
Qed.

Lemma FixTextureGuids_scan_invalid t o :
  IsValid (LightingGuid o) = false →
  ∀ it s s', within (λ p, p ≠ t) s → objects (world s) !! t = Some o →
    TObjectIterator FixTextureGuids_body it s = Some s' →
    objects (world s') !! t = Some o ∧
    (t ∈ it ∨ bHasWarnings (flags s) = true → bHasWarnings (flags s') = true).
Proof.
  intros Hinv. induction it as [|m it IH]; intros s s' Hreg Ho H; simplify_eq/=.
  { split; [done|]. intros [Hm|Hm]; [by apply not_elem_of_nil in Hm|done]. }
  destruct (FixTextureGuids_body m s) as [s1|] eqn:H1; simplify_eq/=.
  destruct (decide (m = t)) as [->|Hmt].
  - rewrite FixTextureGuids_body_eq, Ho in H1. simpl in H1. rewrite Hinv in H1.
    simplify_eq. apply IH in H as [Ho' Hw']; [|done|done].
    split; [done|]. intros _. apply Hw'. by right.
  - destruct (FixTextureGuids_body_within (λ p, p ≠ t) _ _ _ H1 Hreg Hmt) as [Hreg1 Hu].
    assert (objects (world s1) !! t = Some o) as Ho1.
    { rewrite (Hu t); [done|]. by intros Ht. }
    destruct (IH _ _ Hreg1 Ho1 H) as [Ho' Hw']. split; [done|].
    intros [[->|Hm]%elem_of_cons|Hm]; [done| |].
    + apply Hw'. by left.
    + apply Hw'. right.
      apply (Events_warned _ _ _ (FixTextureGuids_body_events _ _ _ H1) Hm).
Qed.

(** What a pass cannot repair it reports and leaves alone. An enumerated
    texture without valid identifier, whoever owns it, is the same object
    after a run of [FixTextureGuids], and the dialog reports unresolvable
    issues; so is, in [FixMaterialGuids] and [FixEmptyTextureGuids], an
    enumerated object without valid identifier that does not pass
    [ShouldModify]. *)
Theorem unrepairable_objects_are_reported it w p o :
  p ∈ it → objects w !! p = Some o → IsValid (LightingGuid o) = false →
  (∀ w' text, FixTextureGuids it w = Some (w', text) →
     objects w' !! p = Some o ∧
     ∃ made, text = TextureDialogText {| bMadeChanges := made; bHasWarnings := true |}) ∧
  (IsProjectContent o = false →
     (∀ w' text, FixMaterialGuids it w = Some (w', text) →
        objects w' !! p = Some o ∧
        ∃ made, text = MaterialDialogText {| bMadeChanges := made; bHasWarnings := true |}) ∧
     (∀ w' text, FixEmptyTextureGuids it w = Some (w', text) →
        objects w' !! p = Some o ∧
        ∃ made, text = EmptyTextureDialogText
                         {| bMadeChanges := made; bHasWarnings := true |})).
Proof.
  intros Hp Ho Hinv. split; [|intros Hown; split]; intros w' text Hrun.
  - unfold FixTextureGuids in Hrun.
    destruct (TObjectIterator _ _ _) as [s|] eqn:Hs; simplify_eq/=.
    destruct (FixTextureGuids_scan_invalid p o Hinv it (start w) s) as [Ho' Hw];
      [apply within_start|done|done|].
    split; [done|]. exists (bMadeChanges (flags s)).
    destruct (flags s) as [made warns]. simpl in *. by rewrite Hw by by left.
  - unfold FixMaterialGuids in Hrun.
    destruct (TObjectIterator _ _ _) as [s|] eqn:Hs; simplify_eq/=.
    pose proof (TObjectIterator_events FixMaterialGuids_body (λ s, (world s, flags s))
                  true it FixMaterialGuids_body_events _ _ Hs) as Hev.
    split; [by apply (Events_foreign _ _ _ _ _ Hev)|].
    exists (bMadeChanges (flags s)).
    assert (bHasWarnings (flags s) = true) as Hw.
    { apply (scan_reports FixMaterialGuids_body (λ s, (world s, flags s)) true p o
               FixMaterialGuids_body_events) with (it := it) (s := start w);
        [|done|done|done|by left].
      intros s1 s2 H1 Ho1. rewrite FixMaterialGuids_body_eq in H1. simpl in Ho1.
      rewrite Ho1 in H1. simpl in H1. rewrite Hinv, Hown in H1. by simplify_eq. }
    destruct (flags s) as [made warns]. simpl in *. by rewrite Hw.
  - unfold FixEmptyTextureGuids in Hrun.
    destruct (TObjectIterator _ _ _) as [s|] eqn:Hs; simplify_eq/=.
    pose proof (TObjectIterator_events FixEmptyTextureGuids_body id
                  false it FixEmptyTextureGuids_body_events _ _ Hs) as Hev.
    split; [by apply (Events_foreign _ _ _ _ _ Hev)|].
    exists (bMadeChanges s.2).
    assert (bHasWarnings s.2 = true) as Hw.
    { apply (scan_reports FixEmptyTextureGuids_body id false p o
               FixEmptyTextureGuids_body_events) with (it := it) (s := (w, no_flags));
        [|done|done|done|by left].
      intros s1 s2 H1 Ho1. rewrite FixEmptyTextureGuids_body_eq in H1. simpl in Ho1.
      rewrite Ho1 in H1. simpl in H1. rewrite Hinv, Hown in H1. by simplify_eq. }
    destruct s.2 as [made warns]. simpl in *. by rewrite Hw.
Qed.

(** ** Enumerations of project content *)

Lemma lookup_of_no_warning line mid tail m om s s' :
  lookup_of line mid tail m s = Some s' →
  objects (world s) !! m = Some om → IsProjectContent om = true →
  bHasWarnings (flags s') = bHasWarnings (flags s).
Proof.
  unfold lookup_of. intros H Hom Hown. rewrite Hom in H. simpl in H.
  destruct (Guids s !! LightingGuid om) as [r|]; [|by simplify_eq].
  destruct (incumbent_of _ _ _ _ _) as [x|] eqn:Hx; simplify_eq/=.
  destruct (current_of _ _ _) as [y|] eqn:Hy; simplify_eq/=.
  destruct (Events_forward _ _ _ m om (incumbent_of_events _ _ _ _ _ _ Hx) Hom)
    as (om' & Hom' & Hrel).
  apply same_or_renewed_own in Hrel. simpl in Hom'.
  assert (flags x.1 = flags s) as <-.
  { unfold incumbent_of in Hx.
    rewrite Hom in Hx. destruct (objects (world s) !! r) as [o|]; simplify_eq/=.
    by destruct (bool_decide (LightingGuid o = LightingGuid om) && IsProjectContent o). }
  unfold current_of in Hy. rewrite Hom' in Hy. simpl in Hy.
  rewrite Hrel, Hown in Hy. injection Hy as <-. simpl in H. by injection H as <-.
Qed.

Lemma FixMaterialGuids_body_no_warning m om s s' :
  FixMaterialGuids_body m s = Some s' →
  objects (world s) !! m = Some om → IsProjectContent om = true →
  bHasWarnings (flags s') = bHasWarnings (flags s).
Proof.
  rewrite FixMaterialGuids_body_eq. intros H Hom Hown. rewrite Hom in H. simpl in H.
  rewrite !FixMaterialGuids_lookup_eq, Hown in H.
  destruct (IsValid _); [by eapply lookup_of_no_warning|].
  eapply lookup_of_no_warning in H; [done| |]; [simpl; by rewrite lookup_insert_eq|done].
Qed.

Lemma FixTextureGuids_body_no_warning m om s s' :
  FixTextureGuids_body m s = Some s' →
  objects (world s) !! m = Some om → IsProjectContent om = true →
  IsValid (LightingGuid om) = true →
  bHasWarnings (flags s') = bHasWarnings (flags s).
Proof.
  rewrite FixTextureGuids_body_eq. intros H Hom Hown Hval. rewrite Hom in H. simpl in H.
  rewrite !FixTextureGuids_lookup_eq, Hval in H. by eapply lookup_of_no_warning.
Qed.

Lemma scan_no_warning (body : nat → Scan → option Scan) (valid : bool) :
  (∀ p s s', body p s = Some s' → rtc (Event true) (world s, flags s) (world s', flags s')) →
  (∀ m om s s', body m s = Some s' →
     objects (world s) !! m = Some om → IsProjectContent om = true →
     (valid = true → IsValid (LightingGuid om) = true) →
     bHasWarnings (flags s') = bHasWarnings (flags s)) →
  ∀ it s s',
    (valid = true → ∀ i, NewGuidCalls (world s) ≤ i → IsValid (NewGuid i) = true) →
    (∀ p, p ∈ it → ∃ o, objects (world s) !! p = Some o ∧ IsProjectContent o = true ∧
       (valid = true → IsValid (LightingGuid o) = true)) →
    TObjectIterator body it s = Some s' →
    bHasWarnings (flags s') = bHasWarnings (flags s).
Proof.
  intros Hev Hbody. induction it as [|m it IH]; intros s s' Hgen Hit H; simplify_eq/=.
  { done. }
  destruct (body m s) as [s1|] eqn:H1; simplify_eq/=.
  destruct (Hit m) as (om & Hom & Hown & Hval); [by left|].
  rewrite <-(Hbody _ _ _ _ H1 Hom Hown Hval).
  pose proof (Events_calls _ _ _ (Hev _ _ _ H1)) as Hn. simpl in Hn.
  apply IH; [|intros p Hp|done].
  - intros Hv i Hi. apply (Hgen Hv). lia.
  - destruct (Hit p) as (o & Ho & Hpo & Hpv); [by right|].
    destruct (Events_forward _ _ _ p o (Hev _ _ _ H1) Ho) as (o' & Ho' & Hrel).
    exists o'. split; [done|]. split.
    + by rewrite (same_or_renewed_own _ _ _ _ Hrel).
    + intros Hv. eapply same_or_renewed_valid; [by apply Hgen|done|by apply Hpv].
Qed.

(** When every enumerated object passes [ShouldModify], nothing is left
    unresolved: [FixMaterialGuids] and [FixEmptyTextureGuids] never report
    unresolvable issues, and neither does [FixTextureGuids] on textures whose
    identifiers are valid, with a generator that returns valid identifiers. *)
Theorem project_content_is_always_resolved it w :
  (∀ p, p ∈ it → ShouldModify w p = Some true) →
  (∀ w' text, FixMaterialGuids it w = Some (w', text) →
     ∃ made, text = MaterialDialogText {| bMadeChanges := made; bHasWarnings := false |}) ∧
  (∀ w' text, FixEmptyTextureGuids it w = Some (w', text) →
     ∃ made, text = EmptyTextureDialogText
                      {| bMadeChanges := made; bHasWarnings := false |}) ∧
  (∀ w' text, FixTextureGuids it w = Some (w', text) →
     (∀ i, NewGuidCalls w ≤ i → IsValid (NewGuid i) = true) →
     (∀ p g, p ∈ it → GetLightingGuid w p = Some g → IsValid g = true) →
     ∃ made, text = TextureDialogText {| bMadeChanges := made; bHasWarnings := false |}).
Proof.
  intros Hit. split_and!; intros w' text Hrun.
  - unfold FixMaterialGuids in Hrun.
    destruct (TObjectIterator _ _ _) as [s|] eqn:Hs; simplify_eq/=.
    exists (bMadeChanges (flags s)).
    pose proof (scan_no_warning FixMaterialGuids_body false FixMaterialGuids_body_events
                  (λ m om s s' H Ho Hown _, FixMaterialGuids_body_no_warning m om s s' H Ho Hown)
                  it (start w) s) as Hw.
    destruct (flags s) as [made warns]. simpl in *. rewrite Hw; [done|done| |done].
    intros p Hp. destruct (ShouldModify_true _ _ (Hit p Hp)) as (o & Ho & Hown).
    by exists o.
  - unfold FixEmptyTextureGuids in Hrun.
    destruct (TObjectIterator _ _ _) as [[w1 f]|] eqn:Hs; simplify_eq/=.
    exists (bMadeChanges f).
    destruct (FixEmptyTextureGuids_scan_flags _ _ _ _ _ Hs) as [_ Hw].
    assert (existsb (unrepairable w) it = false) as Hnone.
    { apply not_true_is_false. intros (p & Hp & Hun)%existsb_exists.
      apply list_elem_of_In in Hp.
      destruct (ShouldModify_true _ _ (Hit p Hp)) as (o & Ho & Hown).
      unfold unrepairable in Hun. rewrite Ho, Hown, andb_false_r in Hun. done. }
    destruct f as [made warns]. simpl in *. by rewrite Hw, Hnone.
  - intros Hgen Hvalid. unfold FixTextureGuids in Hrun.
    destruct (TObjectIterator _ _ _) as [s|] eqn:Hs; simplify_eq/=.
    exists (bMadeChanges (flags s)).
    pose proof (scan_no_warning FixTextureGuids_body true FixTextureGuids_body_events
                  (λ m om s s' H Ho Hown Hval,
                     FixTextureGuids_body_no_warning m om s s' H Ho Hown (Hval eq_refl))
                  it (start w) s) as Hw.
    destruct (flags s) as [made warns]. simpl in *. rewrite Hw; [done|by intros _| |done].
    intros p Hp. destruct (ShouldModify_true _ _ (Hit p Hp)) as (o & Ho & Hown).
    exists o. split_and!; [done|done|]. intros _.
    apply (Hvalid p _ Hp). by apply GetLightingGuid_live.
Qed.

(** ** One pass after another *)

Lemma Events_Fresh unreported x y :
  rtc (Event unreported) x y → Fresh x.1 → Fresh y.1.
Proof.
  intros H [Hinj Hnew]. pose proof (Events_calls _ _ _ H) as Hn. split.
  - intros i j Hi Hj. apply Hinj; lia.
  - intros i p o' Hi Ho'.
    destruct (Events_backward _ _ _ p o' H Ho') as (o & Ho & [->|(_ & k & Hk & ->)]).
    + apply (Hnew i p o); [lia|done].
    + simpl. intros E. apply Hinj in E; lia.
Qed.

Lemma FixEmptyTextureGuids_clean it w :
  (∀ p, p ∈ it → ∃ g, GetLightingGuid w p = Some g ∧ IsValid g = true) →
  FixEmptyTextureGuids it w = Some (w, "No empty texture GUIDs found.").
Proof.
  intros Hvalid. unfold FixEmptyTextureGuids.
  assert (TObjectIterator FixEmptyTextureGuids_body it (w, no_flags) = Some (w, no_flags))
    as ->; [|done].
  induction it as [|p it IH]; cbn [TObjectIterator]; [done|].
  destruct (Hvalid p) as (g & Hg & Hval); [by left|].
  rewrite (FixEmptyTextureGuids_body_valid p (w, no_flags) g Hg Hval).
  apply IH. intros q Hq. apply Hvalid. by right.
Qed.

(** The two texture passes, one after the other, on textures of the project
    (each enumerated once; the identifiers of the generator valid, pairwise
    distinct and held by no object): after [FixEmptyTextureGuids] and then
    [FixTextureGuids], every enumerated texture holds a valid identifier, no
    two of them hold the same, the second dialog reports no unresolvable
    issue, and a further run of either pass changes nothing and finds
    nothing. *)
Theorem texture_passes_in_sequence it w w1 w2 text1 text2 :
  NoDup it → Fresh w →
  (∀ i, NewGuidCalls w ≤ i → IsValid (NewGuid i) = true) →
  (∀ p, p ∈ it → ShouldModify w p = Some true) →
  FixEmptyTextureGuids it w = Some (w1, text1) →
  FixTextureGuids it w1 = Some (w2, text2) →
  (∀ p, p ∈ it → ∃ g, GetLightingGuid w2 p = Some g ∧ IsValid g = true) ∧
  (∀ a b, a ∈ it → b ∈ it → a ≠ b → GetLightingGuid w2 a ≠ GetLightingGuid w2 b) ∧
  (∃ made, text2 = TextureDialogText {| bMadeChanges := made; bHasWarnings := false |}) ∧
  FixEmptyTextureGuids it w2 = Some (w2, "No empty texture GUIDs found.") ∧
  FixTextureGuids it w2 = Some (w2, "No duplicate texture GUIDs found.").
Proof.
  intros Hnd Hw Hgen Hit H1 H2.
  unfold FixEmptyTextureGuids in H1.
  destruct (TObjectIterator _ _ _) as [[w1' f1]|] eqn:Hs1; simplify_eq/=.
  unfold FixTextureGuids in H2.
  destruct (TObjectIterator _ _ (start w1)) as [s|] eqn:Hs2; simplify_eq/=.
  pose proof (TObjectIterator_events FixEmptyTextureGuids_body id false it
                FixEmptyTextureGuids_body_events _ _ Hs1) as Hev1.
  pose proof (TObjectIterator_events FixTextureGuids_body (λ s, (world s, flags s)) true it
                FixTextureGuids_body_events _ _ Hs2) as Hev2.
  pose proof (Events_calls _ _ _ Hev1) as Hn1. simpl in Hn1.
  assert (∀ i, NewGuidCalls w1 ≤ i → IsValid (NewGuid i) = true) as Hgen1.
  { intros i Hi. apply Hgen. lia. }
  assert (∀ p, p ∈ it → ∃ o, objects w1 !! p = Some o ∧ IsProjectContent o = true ∧
            IsValid (LightingGuid o) = true) as Hmid.
  { intros p Hp. destruct (ShouldModify_true _ _ (Hit p Hp)) as (o0 & Ho0 & Hown0).
    destruct (scan_repaired FixEmptyTextureGuids_body id false
                FixEmptyTextureGuids_body_events FixEmptyTextureGuids_body_repaired
                it (w, no_flags) (w1, f1) Hgen Hs1 p Hp) as (o & Ho & Hval).
    destruct (Events_forward _ _ _ p o0 Hev1 Ho0) as (o' & Ho' & Hrel).
    simpl in Ho, Ho'. assert (o' = o) as -> by congruence.
    apply same_or_renewed_own in Hrel. exists o. split_and!; [done|congruence|].
    apply Hval. congruence. }
  assert (∀ p, p ∈ it → ∃ o, objects (world s) !! p = Some o ∧ IsProjectContent o = true ∧
            IsValid (LightingGuid o) = true) as Hend.
  { intros p Hp. destruct (Hmid p Hp) as (o & Ho & Hown & Hval).
    destruct (Events_forward _ _ _ p o Hev2 Ho) as (o' & Ho' & Hrel).
    exists o'. split_and!; [done| |].
    - by rewrite (same_or_renewed_own _ _ _ _ Hrel).
    - by eapply same_or_renewed_valid. }
  assert (∀ p, p ∈ it → ∃ g, GetLightingGuid (world s) p = Some g ∧ IsValid g = true)
    as Hvalid.
  { intros p Hp. destruct (Hend p Hp) as (o & Ho & _ & Hval).
    exists (LightingGuid o). split; [by apply GetLightingGuid_live|done]. }
  assert (∀ a b, a ∈ it → b ∈ it →
            GetLightingGuid (world s) a = GetLightingGuid (world s) b → a = b) as Hinj.
  { intros a b Ha Hb.
    pose proof (pass_inv _ _ _ _ _ FixTextureGuids_body_steps Hnd
                  (Events_Fresh _ _ _ Hev1 Hw) Hs2) as I.
    destruct (Hend a Ha) as (oa & Hoa & Howna & Hvala).
    destruct (Hend b Hb) as (ob & Hob & Hownb & Hvalb).
    rewrite (GetLightingGuid_live _ _ _ Hoa), (GetLightingGuid_live _ _ _ Hob).
    intros [= E].
    pose proof (inv_entered _ _ _ _ _ I a oa Ha Hoa Howna (λ _, Hvala)) as Ea.
    pose proof (inv_entered _ _ _ _ _ I b ob Hb Hob Hownb (λ _, Hvalb)) as Eb.
    rewrite E in Ea. congruence. }
  split_and!.
  - done.
  - intros a b Ha Hb Hab E. by apply Hab, Hinj.
  - exists (bMadeChanges (flags s)).
    pose proof (scan_no_warning FixTextureGuids_body true FixTextureGuids_body_events
                  (λ m om s s' H Ho Hown Hval,
                     FixTextureGuids_body_no_warning m om s s' H Ho Hown (Hval eq_refl))
                  it (start w1) s) as Hwarn.
    destruct (flags s) as [made warns]. simpl in *.
    rewrite Hwarn; [done|by intros _| |done].
    intros p Hp. destruct (Hmid p Hp) as (o & Ho & Hown & Hval). exists o. by split_and!.
  - by apply FixEmptyTextureGuids_clean.
  - by apply FixTextureGuids_clean.
Qed.

(** ** [ShouldModify] on content of the engine *)

Lemma StartsWith_Engine_not_Game path :
  StartsWith path "/Engine/" = true → StartsWith path "/Game/" = false.
Proof.
  unfold StartsWith. destruct path as [|c0 [|c1 path]]; cbn [String.prefix]; [done| |].
  - by destruct (Ascii.ascii_dec _ c0).
  - destruct (Ascii.ascii_dec _ c0); [|done].
    destruct (Ascii.ascii_dec _ c1) as [<-|]; [|done]. done.
Qed.

(** [ShouldModify] refuses content of the engine as it refuses content of
    plugins: on an object whose path starts with "/Engine/" it answers no,
    and no pass writes to such an object. *)
Theorem engine_content_is_refused it w p path :
  GetPathName w p = Some path → StartsWith path "/Engine/" = true →
  ShouldModify w p = Some false ∧
  (∀ w' text, FixMaterialGuids it w = Some (w', text) →
     objects w' !! p = objects w !! p) ∧
  (∀ w' text, FixTextureGuids it w = Some (w', text) →
     objects w' !! p = objects w !! p) ∧
  (∀ w' text, FixEmptyTextureGuids it w = Some (w', text) →
     objects w' !! p = objects w !! p).
Proof.
  intros Hpath Hengine. apply StartsWith_Engine_not_Game in Hengine.
  assert (ShouldModify w p = Some false) as Hno.
  { unfold ShouldModify. rewrite Hpath. simpl. by rewrite Hengine. }
  split; [done|]. apply ShouldModify_false in Hno as (o & Ho & Hown). rewrite Ho.
  split_and!; intros w' text H; by apply (keeps_passes it w w' text); auto.
Qed.

(** ** Valid identifiers in [FixEmptyTextureGuids] *)

(** [FixEmptyTextureGuids] writes only to objects without valid identifier:
    an object whose identifier is valid, enumerated or not, of the project or
    not, is after the run the object it was. *)
Theorem FixEmptyTextureGuids_keeps_valid_identifiers it w w' text p o :
  objects w !! p = Some o → IsValid (LightingGuid o) = true →
  FixEmptyTextureGuids it w = Some (w', text) →
  objects w' !! p = Some o.
Proof.
  intros Ho Hval. unfold FixEmptyTextureGuids. intros H.
  destruct (TObjectIterator _ _ _) as [s'|] eqn:Hs; simplify_eq/=.
  assert (∀ s, objects s.1 !! p = Some o →
            TObjectIterator FixEmptyTextureGuids_body it s = Some s' →
            objects s'.1 !! p = Some o) as Hscan; [|by apply (Hscan (w, no_flags))].
  clear Hs Ho. induction it as [|m it IH]; intros s Ho Hs; simplify_eq/=; [done|].
  destruct (FixEmptyTextureGuids_body m s) as [s1|] eqn:H1; simplify_eq/=.
  apply (IH s1); [|done].
  destruct (decide (m = p)) as [->|Hmp].
  - rewrite FixEmptyTextureGuids_body_eq, Ho in H1. simpl in H1. rewrite Hval in H1.
    by simplify_eq.
  - rewrite (FixEmptyTextureGuids_body_within (λ q, q ≠ p) _ _ _ H1 Hmp p); [done|].
    by intros Hp.
Qed.

(** ** An object outside the project in a collision *)

(** Two materials with one valid identifier, the second of them outside the
    project. When the first belongs to the project, [FixMaterialGuids] gives
    it the next identifier of the generator and leaves the other, in either
    order of enumeration, but the dialog reports the change only when the
    material of the project is enumerated second; when the first is outside
    the project too, both keep the identifier and the dialog reports
    unresolvable issues. *)
Theorem collision_with_foreign_object a b k w :
  a ≠ b →
  GetLightingGuid w a = Some k → GetLightingGuid w b = Some k → IsValid k = true →
  ShouldModify w b = Some false →
  (ShouldModify w a = Some true →
     ∃ w1 w2,
       FixMaterialGuids [a; b] w = Some (w1, "No duplicate material GUIDs found.") ∧
       FixMaterialGuids [b; a] w =
         Some (w2, "At least one material GUID has been changed. Use save all to save these changes.") ∧
       w1 = w2 ∧
       GetLightingGuid w1 a = Some (NewGuid (NewGuidCalls w)) ∧
       GetLightingGuid w1 b = Some k) ∧
  (ShouldModify w a = Some false →
     ∃ w', FixMaterialGuids [a; b] w =
             Some (w', "No material GUID has been changed, but there are some unresolvable issues (Please refer to log).") ∧
       objects w' = objects w ∧ NewGuidCalls w' = NewGuidCalls w).
Proof.
  intros Hab Hka Hkb Hvalid (ob & Hob & Hownb)%ShouldModify_false.
  unfold GetLightingGuid in Hka, Hkb. rewrite Hob in Hkb. simpl in Hkb.
  injection Hkb as Hkb. split.
  - intros (oa & Hoa & Howna)%ShouldModify_true.
    rewrite Hoa in Hka. simpl in Hka. injection Hka as Hka.
    eexists _, _. split_and!.
    + unfold FixMaterialGuids. cbn [TObjectIterator].
      rewrite FixMaterialGuids_body_eq. simpl. rewrite Hoa. simpl. rewrite Hka, Hvalid.
      rewrite FixMaterialGuids_lookup_eq. unfold lookup_of. simpl. rewrite Hoa. simpl.
      rewrite lookup_empty. simpl.
      rewrite FixMaterialGuids_body_eq. simpl. rewrite Hob. simpl. rewrite Hkb, Hvalid.
      rewrite FixMaterialGuids_lookup_eq. unfold lookup_of. simpl. rewrite Hob. simpl.
      rewrite Hka, Hkb, lookup_insert_eq. simpl.
      unfold incumbent_of. simpl. rewrite Hoa, Hob. simpl.
      rewrite Hka, Hkb, bool_decide_eq_true_2 by done. rewrite Howna. simpl.
      unfold current_of. simpl. rewrite lookup_insert_ne, Hob by done. simpl.
      rewrite Hownb. simpl. reflexivity.
    + unfold FixMaterialGuids. cbn [TObjectIterator].
      rewrite FixMaterialGuids_body_eq. simpl. rewrite Hob. simpl. rewrite Hkb, Hvalid.
      rewrite FixMaterialGuids_lookup_eq. unfold lookup_of. simpl. rewrite Hob. simpl.
      rewrite lookup_empty. simpl.
      rewrite FixMaterialGuids_body_eq. simpl. rewrite Hoa. simpl. rewrite Hka, Hvalid.
      rewrite FixMaterialGuids_lookup_eq. unfold lookup_of. simpl. rewrite Hoa. simpl.
      rewrite Hka, Hkb, lookup_insert_eq. simpl.
      unfold incumbent_of. simpl. rewrite Hoa, Hob. simpl.
      rewrite Hka, Hkb, bool_decide_eq_true_2 by done. rewrite Hownb. simpl.
      unfold current_of. simpl. rewrite Hoa. simpl.
      rewrite Howna. simpl. reflexivity.
    + reflexivity.
    + unfold GetLightingGuid. simpl. by rewrite lookup_insert_eq.
    + unfold GetLightingGuid. simpl. rewrite lookup_insert_ne, Hob by done.
      simpl. by rewrite Hkb.
  - intros (oa & Hoa & Howna)%ShouldModify_false.
    rewrite Hoa in Hka. simpl in Hka. injection Hka as Hka.
    eexists. split_and!.
    + unfold FixMaterialGuids. cbn [TObjectIterator].
      rewrite FixMaterialGuids_body_eq. simpl. rewrite Hoa. simpl. rewrite Hka, Hvalid.
      rewrite FixMaterialGuids_lookup_eq. unfold lookup_of. simpl. rewrite Hoa. simpl.
      rewrite lookup_empty. simpl.
      rewrite FixMaterialGuids_body_eq. simpl. rewrite Hob. simpl. rewrite Hkb, Hvalid.
      rewrite FixMaterialGuids_lookup_eq. unfold lookup_of. simpl. rewrite Hob. simpl.
      rewrite Hka, Hkb, lookup_insert_eq. simpl.
      unfold incumbent_of. simpl. rewrite Hoa, Hob. simpl.
      rewrite Hka, Hkb, bool_decide_eq_true_2 by done. rewrite Howna. simpl.
      unfold current_of. simpl. rewrite Hob. simpl.
      rewrite Hownb. simpl. unfold unresolved_of. simpl. rewrite Hoa, Hob. simpl.
      reflexivity.
    + done.
    + done.
Qed.

End Properties.

(** * The properties on the sample hosts *)

(** The sample generator is fresh for a host whose identifiers are below 1000. *)
Lemma sample_Fresh l :
  Forall (λ x, (LightingGuid x.2 < 1000)%N) l →
  Fresh (generator := sample_generator) (host l).
Proof.
  intros Hl. split.
  - unfold NewGuid, sample_generator. intros i j _ _ E. lia.
  - intros i p o _ Hp%elem_of_list_to_map_2. unfold NewGuid, sample_generator.
    rewrite Forall_forall in Hl. specialize (Hl _ Hp). simpl in Hl. lia.
Qed.

(** The material of the plugin in [project_and_plugin] is left as it is. *)
Lemma foreign_objects_never_written_witness :
  ShouldModify project_and_plugin 2 = Some false ∧
  (∀ w' text, FixMaterialGuids (generator := sample_generator) [1; 2] project_and_plugin
                = Some (w', text) →
     objects w' !! 2 = objects project_and_plugin !! 2) ∧
  (∀ w' text, FixTextureGuids (generator := sample_generator) [1; 2] project_and_plugin
                = Some (w', text) →
     objects w' !! 2 = objects project_and_plugin !! 2) ∧
  (∀ w' text, FixEmptyTextureGuids (generator := sample_generator) [1; 2] project_and_plugin
                = Some (w', text) →
     objects w' !! 2 = objects project_and_plugin !! 2).
Proof.
  split; [reflexivity|].
  apply (foreign_objects_never_written (generator := sample_generator)
           [1; 2] project_and_plugin 2).
  reflexivity.
Defined.

(** Splits a membership in an explicit list into its cases. *)
Ltac members H :=
  repeat (apply elem_of_cons in H as [->|H]); [..|by apply elem_of_nil in H].

(** The two materials of the project in [plugin_between] end with different identifiers. *)
Lemma FixMaterialGuids_no_shared_identifier_witness :
  ∃ w' text,
    FixMaterialGuids (generator := sample_generator) [1; 2; 3] plugin_between
      = Some (w', text) ∧
    ShouldModify w' 1 = Some true ∧ ShouldModify w' 3 = Some true ∧
    GetLightingGuid w' 1 ≠ GetLightingGuid w' 3.
Proof.
  eexists _, _. split; [vm_compute; reflexivity|].
  split; [reflexivity|]. split; [reflexivity|].
  eapply (FixMaterialGuids_no_shared_identifier (generator := sample_generator)
            [1; 2; 3] plugin_between _ _ 1 3).
  - apply (bool_decide_unpack _). by vm_compute.
  - apply sample_Fresh. repeat constructor.
  - vm_compute; reflexivity.
  - apply (bool_decide_unpack _). by vm_compute.
  - apply (bool_decide_unpack _). by vm_compute.
  - lia.
  - reflexivity.
  - reflexivity.
Defined.

(** On [two_of_project] both materials get a new identifier: it is not the case that exactly one of them does. *)
Lemma shared_pair_not_exactly_one :
  ShouldModify two_of_project 1 = Some true ∧
  ShouldModify two_of_project 2 = Some true ∧
  GetLightingGuid two_of_project 1 = Some 7%N ∧
  GetLightingGuid two_of_project 2 = Some 7%N ∧
  IsValid 7 = true ∧
  ∃ w' text,
    FixMaterialGuids (generator := sample_generator) [1; 2] two_of_project
      = Some (w', text) ∧
    GetLightingGuid w' 1 = Some 1000%N ∧
    GetLightingGuid w' 2 = Some 1001%N ∧
    ¬ exactly_one_renewed two_of_project w' 1 2.
Proof.
  split_and!; try reflexivity.
  eexists _, _. split; [vm_compute; reflexivity|].
  split; [reflexivity|]. split; [reflexivity|].
  intros [[_ E]|[E _]]; vm_compute in E; discriminate.
Qed.

(** The two materials that share an identifier in [pair_and_other], with the third enumerated between them. *)
Lemma shared_pair_both_renewed_witness :
  ∃ w' text ga gb,
    FixMaterialGuids (generator := sample_generator) [1; 3; 2] pair_and_other
      = Some (w', text) ∧
    GetLightingGuid w' 1 = Some ga ∧ GetLightingGuid w' 2 = Some gb ∧
    ga ≠ 7%N ∧ gb ≠ 7%N ∧ ga ≠ gb.
Proof.
  assert (∃ w' text, FixMaterialGuids (generator := sample_generator) [1; 3; 2]
                       pair_and_other = Some (w', text)) as (w' & text & Hrun).
  { eexists _, _. vm_compute. reflexivity. }
  destruct (shared_pair_both_renewed (generator := sample_generator)
              [1; 3; 2] pair_and_other w' text 1 2 7%N) as (ga & gb & H);
    [..|exact Hrun|].
  - apply (bool_decide_unpack _). by vm_compute.
  - apply sample_Fresh. repeat constructor.
  - apply (bool_decide_unpack _). by vm_compute.
  - apply (bool_decide_unpack _). by vm_compute.
  - lia.
  - reflexivity.
  - reflexivity.
  - reflexivity.
  - reflexivity.
  - reflexivity.
  - intros m Hm Hm1 Hm2. members Hm; done.
  - exists w', text, ga, gb. by split.
Defined.

(** The two texture passes, one after the other, on [unset_texture]. *)
Lemma texture_without_identifier_witness :
  objects (world (start unset_texture)) !! 1 = Some (object "/Game/T" 0) ∧
  IsValid (LightingGuid (object "/Game/T" 0)) = false ∧
  IsProjectContent (object "/Game/T" 0) = true ∧
  (∃ s', FixTextureGuids_body (generator := sample_generator) 1 (start unset_texture)
           = Some s' ∧
     objects (world s') = objects unset_texture ∧
     Guids s' = ∅ ∧
     flags s' = set_bHasWarnings no_flags) ∧
  ∃ w1 w2,
    FixTextureGuids (generator := sample_generator) [1] unset_texture =
      Some (w1, "No texture GUID has been changed, but there are some unresolvable issues (Please refer to log).") ∧
    FixEmptyTextureGuids (generator := sample_generator) [1] w1 =
      Some (w2, "At least one texture GUID has been changed. Use save all to save these changes.") ∧
    GetLightingGuid w2 1 = Some 1000%N.
Proof.
  split; [reflexivity|]. split; [reflexivity|]. split; [reflexivity|].
  destruct (texture_without_identifier (generator := sample_generator)
              (start unset_texture) 1 (object "/Game/T" 0) eq_refl eq_refl)
    as [(s' & Hs' & Hobj & _ & Hreg & Hflags) Hproject].
  split; [by exists s'|].
  destruct (Hproject eq_refl) as (_ & w1 & w2 & H1 & _ & H2 & Hg).
  by exists w1, w2.
Defined.

(** [FixEmptyTextureGuids] on [valid_textures], where two textures share an identifier. *)
Lemma FixEmptyTextureGuids_all_valid_witness :
  (∀ p, p ∈ [1; 2; 3] → ∃ g, GetLightingGuid valid_textures p = Some g ∧ IsValid g = true) ∧
  TObjectIterator (FixEmptyTextureGuids_body (generator := sample_generator))
    [1; 2; 3] (valid_textures, no_flags) = Some (valid_textures, no_flags) ∧
  FixEmptyTextureGuids (generator := sample_generator) [1; 2; 3] valid_textures
    = Some (valid_textures, "No empty texture GUIDs found.").
Proof.
  assert (∀ p, p ∈ [1; 2; 3] →
            ∃ g, GetLightingGuid valid_textures p = Some g ∧ IsValid g = true) as Hvalid.
  { intros p Hp. members Hp; by eexists. }
  split; [exact Hvalid|].
  exact (FixEmptyTextureGuids_all_valid (generator := sample_generator)
           [1; 2; 3] valid_textures Hvalid).
Defined.

(** The registry of [FixMaterialGuids] on [plugin_between] when the third material is reached. *)
Lemma registry_entries_are_held_witness :
  ∃ s, TObjectIterator (FixMaterialGuids_body (generator := sample_generator))
         [1; 2] (start plugin_between) = Some s ∧
       entries_held s ∧
       ∀ s1, FixMaterialGuids_invalid (generator := sample_generator) 3 s = Some (Proceed s1) →
             lookup_hits_holder s1 3.
Proof.
  eexists.
  assert (TObjectIterator (FixMaterialGuids_body (generator := sample_generator))
            [1; 2] (start plugin_between) = Some _) as Hrun by (vm_compute; reflexivity).
  split; [exact Hrun|].
  refine (proj1 (registry_entries_are_held (generator := sample_generator)
                   [1; 2; 3] plugin_between [1; 2] 3 [] _ _ _ eq_refl) Hrun).
  - apply (bool_decide_unpack _). by vm_compute.
  - apply sample_Fresh. repeat constructor.
Defined.


(** C4. Three materials with one identifier, the second one outside the
    project: the first run renews the first material only, says that no
    duplicate was found, and leaves the third with the identifier of the
    second; the second run over the result renews the third and reports a
    change. *)
Theorem FixMaterialGuids_second_run_changes :
  outcome [1; 2; 3]
    (FixMaterialGuids (generator := sample_generator) [1; 2; 3] plugin_between)
  = Some ([Some 1000; Some 7; Some 7]%N, "No duplicate material GUIDs found.") ∧
  outcome [1; 2; 3]
    (r ← FixMaterialGuids (generator := sample_generator) [1; 2; 3] plugin_between;
     FixMaterialGuids (generator := sample_generator) [1; 2; 3] r.1)
  = Some ([Some 1000; Some 7; Some 1001]%N,
          "At least one material GUID has been changed. Use save all to save these changes.").
Proof. split; vm_compute; reflexivity. Qed.

(** C5. A material of the project and one of a plugin with one identifier:
    in both orders the first ends with a new identifier and the second keeps
    its own, but the dialog reports the change only when the material of the
    plugin is enumerated first; enumerated second, the change of the object
    found in the registry is not recorded in [bMadeChanges] and the dialog says
    that no duplicate was found. With both outside the project nothing changes
    and the dialog reports unresolved issues. *)
Theorem FixMaterialGuids_report_depends_on_order :
  outcome [1; 2]
    (FixMaterialGuids (generator := sample_generator) [1; 2] project_and_plugin)
  = Some ([Some 1000; Some 7]%N, "No duplicate material GUIDs found.") ∧
  outcome [1; 2]
    (FixMaterialGuids (generator := sample_generator) [2; 1] project_and_plugin)
  = Some ([Some 1000; Some 7]%N,
          "At least one material GUID has been changed. Use save all to save these changes.") ∧
  outcome [1; 2]
    (FixMaterialGuids (generator := sample_generator) [1; 2] two_of_plugin)
  = Some ([Some 7; Some 7]%N,
          "No material GUID has been changed, but there are some unresolvable issues (Please refer to log).") ∧
  outcome [1; 2]
    (FixMaterialGuids (generator := sample_generator) [2; 1] two_of_plugin)
  = Some ([Some 7; Some 7]%N,
          "No material GUID has been changed, but there are some unresolvable issues (Please refer to log).").
Proof. split_and!; vm_compute; reflexivity. Qed.

(** The two textures of the project in [valid_textures] end with different identifiers. *)
Lemma FixTextureGuids_no_shared_identifier_witness :
  ∃ w' text,
    FixTextureGuids (generator := sample_generator) [1; 2; 3] valid_textures
      = Some (w', text) ∧
    GetLightingGuid w' 1 = Some 1000%N ∧
    GetLightingGuid w' 2 ≠ Some 1000%N.
Proof.
  eexists _, _. split; [vm_compute; reflexivity|].
  split; [reflexivity|].
  eapply (FixTextureGuids_no_shared_identifier (generator := sample_generator)
            [1; 2; 3] valid_textures _ _ 1 2 1000%N).
  - apply (bool_decide_unpack _). by vm_compute.
  - apply sample_Fresh. repeat constructor.
  - vm_compute; reflexivity.
  - apply (bool_decide_unpack _). by vm_compute.
  - apply (bool_decide_unpack _). by vm_compute.
  - lia.
  - reflexivity.
  - reflexivity.
  - reflexivity.
  - reflexivity.
Defined.

(** [three_of_project], enumerated from the third material on. *)
Lemma three_of_project_share_witness :
  ∃ w', FixMaterialGuids (generator := sample_generator) [3; 1; 2] three_of_project =
          Some (w', "At least one material GUID has been changed. Use save all to save these changes.") ∧
        GetLightingGuid w' 3 = Some 1000%N ∧
        GetLightingGuid w' 1 = Some 1001%N ∧
        GetLightingGuid w' 2 = Some 7%N.
Proof.
  apply (three_of_project_share (generator := sample_generator) 3 1 2 7%N three_of_project).
  - apply (bool_decide_unpack _). by vm_compute.
  - apply sample_Fresh. repeat constructor.
  - reflexivity.
  - reflexivity.
  - reflexivity.
  - reflexivity.
  - reflexivity.
  - reflexivity.
  - reflexivity.
Defined.

(** Both collision passes on [all_different]. *)
Lemma passes_keep_clean_enumeration_witness :
  FixMaterialGuids (generator := sample_generator) [3; 1; 2] all_different
    = Some (all_different, "No duplicate material GUIDs found.") ∧
  FixTextureGuids (generator := sample_generator) [3; 1; 2] all_different
    = Some (all_different, "No duplicate texture GUIDs found.").
Proof.
  apply (passes_keep_clean_enumeration (generator := sample_generator) [3; 1; 2] all_different).
  - apply (bool_decide_unpack _). by vm_compute.
  - intros p Hp. members Hp; by eexists.
  - intros p q Hp Hq. members Hp; members Hq; by vm_compute.
Defined.

(** Two runs of [FixMaterialGuids] on [three_of_project]. *)
Lemma FixMaterialGuids_twice_on_project_witness :
  ∃ w1 text,
    FixMaterialGuids (generator := sample_generator) [1; 2; 3] three_of_project
      = Some (w1, text) ∧
    FixMaterialGuids (generator := sample_generator) [1; 2; 3] w1
      = Some (w1, "No duplicate material GUIDs found.").
Proof.
  assert (∃ w1 text, FixMaterialGuids (generator := sample_generator) [1; 2; 3]
                       three_of_project = Some (w1, text)) as (w1 & text & Hrun).
  { eexists _, _. vm_compute. reflexivity. }
  exists w1, text. split; [exact Hrun|].
  apply (FixMaterialGuids_twice_on_project (generator := sample_generator)
           [1; 2; 3] three_of_project w1 text).
  - apply (bool_decide_unpack _). by vm_compute.
  - apply sample_Fresh. repeat constructor.
  - intros i _. unfold NewGuid, sample_generator, IsValid.
    apply negb_true_iff, N.eqb_neq. lia.
  - intros p Hp. members Hp; reflexivity.
  - exact Hrun.
Defined.

(** The sample generator returns valid identifiers only. *)
Lemma sample_valid n i :
  n ≤ i → IsValid (@NewGuid sample_generator i) = true.
Proof.
  intros _. unfold NewGuid, sample_generator, IsValid.
  apply negb_true_iff, N.eqb_neq. lia.
Qed.

(** The texture of the project without identifier in [mixed_textures] holds
    a valid one after [FixEmptyTextureGuids]. *)
Lemma repaired_objects_are_valid_witness :
  ∃ w' text,
    FixEmptyTextureGuids (generator := sample_generator) [1; 2; 3] mixed_textures
      = Some (w', text) ∧
    ShouldModify w' 1 = Some true ∧
    ∃ g, GetLightingGuid w' 1 = Some g ∧ IsValid g = true.
Proof.
  eexists _, _. split; [vm_compute; reflexivity|]. split; [reflexivity|].
  eapply (proj2 (repaired_objects_are_valid (generator := sample_generator)
                   [1; 2; 3] mixed_textures (sample_valid _))).
  - vm_compute; reflexivity.
  - apply (bool_decide_unpack _). by vm_compute.
  - reflexivity.
Defined.

(** The dialog of [FixEmptyTextureGuids] on [mixed_textures]. *)
Lemma FixEmptyTextureGuids_dialog_of_host_witness :
  ∃ w' text,
    FixEmptyTextureGuids (generator := sample_generator) [1; 2; 3] mixed_textures
      = Some (w', text) ∧
    text = EmptyTextureDialogText
             {| bMadeChanges := existsb (repairable mixed_textures) [1; 2; 3];
                bHasWarnings := existsb (unrepairable mixed_textures) [1; 2; 3] |} ∧
    text = "At least one texture GUID has been changed, but there are some unresolvable issues (Please refer to log). Use save all to save these changes.".
Proof.
  eexists _, _. split; [vm_compute; reflexivity|]. split; [|reflexivity].
  eapply (FixEmptyTextureGuids_dialog_of_host (generator := sample_generator)
            [1; 2; 3] mixed_textures).
  vm_compute; reflexivity.
Defined.

(** Two runs of [FixEmptyTextureGuids] on [mixed_textures]. *)
Lemma FixEmptyTextureGuids_twice_witness :
  ∃ w1 text w2 warns,
    FixEmptyTextureGuids (generator := sample_generator) [1; 2; 3] mixed_textures
      = Some (w1, text) ∧
    text = EmptyTextureDialogText
             {| bMadeChanges := existsb (repairable mixed_textures) [1; 2; 3];
                bHasWarnings := warns |} ∧
    FixEmptyTextureGuids (generator := sample_generator) [1; 2; 3] w1 =
      Some (w2, EmptyTextureDialogText {| bMadeChanges := false; bHasWarnings := warns |}) ∧
    objects w2 = objects w1 ∧ NewGuidCalls w2 = NewGuidCalls w1.
Proof.
  assert (∃ w1 text, FixEmptyTextureGuids (generator := sample_generator) [1; 2; 3]
                       mixed_textures = Some (w1, text)) as (w1 & text & Hrun).
  { eexists _, _. vm_compute. reflexivity. }
  destruct (FixEmptyTextureGuids_twice (generator := sample_generator)
              [1; 2; 3] mixed_textures w1 text (sample_valid _) Hrun)
    as (w2 & warns & H).
  exists w1, text, w2, warns. split; [exact Hrun|exact H].
Defined.

(** The texture of the plugin without identifier in [mixed_textures]. *)
Lemma unrepairable_objects_are_reported_witness :
  (∀ w' text, FixTextureGuids (generator := sample_generator) [1; 2; 3] mixed_textures
                = Some (w', text) →
     objects w' !! 2 = Some (object "/Plugin/U" 0) ∧
     ∃ made, text = TextureDialogText {| bMadeChanges := made; bHasWarnings := true |}) ∧
  (IsProjectContent (object "/Plugin/U" 0) = false →
     (∀ w' text, FixMaterialGuids (generator := sample_generator) [1; 2; 3] mixed_textures
                   = Some (w', text) →
        objects w' !! 2 = Some (object "/Plugin/U" 0) ∧
        ∃ made, text = MaterialDialogText {| bMadeChanges := made; bHasWarnings := true |}) ∧
     (∀ w' text, FixEmptyTextureGuids (generator := sample_generator) [1; 2; 3] mixed_textures
                   = Some (w', text) →
        objects w' !! 2 = Some (object "/Plugin/U" 0) ∧
        ∃ made, text = EmptyTextureDialogText
                         {| bMadeChanges := made; bHasWarnings := true |})).
Proof.
  apply (unrepairable_objects_are_reported (generator := sample_generator)
           [1; 2; 3] mixed_textures 2 (object "/Plugin/U" 0)).
  - apply (bool_decide_unpack _). by vm_compute.
  - reflexivity.
  - reflexivity.
Defined.

(** The three passes on [three_of_project]. *)
Lemma project_content_is_always_resolved_witness :
  (∀ w' text, FixMaterialGuids (generator := sample_generator) [1; 2; 3] three_of_project
                = Some (w', text) →
     ∃ made, text = MaterialDialogText {| bMadeChanges := made; bHasWarnings := false |}) ∧
  (∀ w' text, FixEmptyTextureGuids (generator := sample_generator) [1; 2; 3] three_of_project
                = Some (w', text) →
     ∃ made, text = EmptyTextureDialogText
                      {| bMadeChanges := made; bHasWarnings := false |}) ∧
  (∀ w' text, FixTextureGuids (generator := sample_generator) [1; 2; 3] three_of_project
                = Some (w', text) →
     (∀ i, NewGuidCalls three_of_project ≤ i →
        IsValid (@NewGuid sample_generator i) = true) →
     (∀ p g, p ∈ [1; 2; 3] → GetLightingGuid three_of_project p = Some g →
        IsValid g = true) →
     ∃ made, text = TextureDialogText {| bMadeChanges := made; bHasWarnings := false |}).
Proof.
  apply (project_content_is_always_resolved (generator := sample_generator)
           [1; 2; 3] three_of_project).
  intros p Hp. members Hp; reflexivity.
Defined.

(** [FixEmptyTextureGuids] and then [FixTextureGuids] on [project_textures]. *)
Lemma texture_passes_in_sequence_witness :
  ∃ w1 text1 w2 text2,
    FixEmptyTextureGuids (generator := sample_generator) [1; 2; 3] project_textures
      = Some (w1, text1) ∧
    FixTextureGuids (generator := sample_generator) [1; 2; 3] w1 = Some (w2, text2) ∧
    (∀ p, p ∈ [1; 2; 3] → ∃ g, GetLightingGuid w2 p = Some g ∧ IsValid g = true) ∧
    (∀ a b, a ∈ [1; 2; 3] → b ∈ [1; 2; 3] → a ≠ b →
       GetLightingGuid w2 a ≠ GetLightingGuid w2 b) ∧
    (∃ made, text2 = TextureDialogText {| bMadeChanges := made; bHasWarnings := false |}) ∧
    FixEmptyTextureGuids (generator := sample_generator) [1; 2; 3] w2
      = Some (w2, "No empty texture GUIDs found.") ∧
    FixTextureGuids (generator := sample_generator) [1; 2; 3] w2
      = Some (w2, "No duplicate texture GUIDs found.").
Proof.
  eexists _, _, _, _. split; [vm_compute; reflexivity|].
  split; [vm_compute; reflexivity|].
  eapply (texture_passes_in_sequence (generator := sample_generator)
            [1; 2; 3] project_textures).
  - apply (bool_decide_unpack _). by vm_compute.
  - apply sample_Fresh. repeat constructor.
  - apply sample_valid.
  - intros p Hp. members Hp; reflexivity.
  - vm_compute; reflexivity.
  - vm_compute; reflexivity.
Defined.

(** The texture of the engine in [mixed_textures]. *)
Lemma engine_content_is_refused_witness :
  ShouldModify mixed_textures 4 = Some false ∧
  (∀ w' text, FixMaterialGuids (generator := sample_generator) [1; 2; 3; 4] mixed_textures
                = Some (w', text) →
     objects w' !! 4 = objects mixed_textures !! 4) ∧
  (∀ w' text, FixTextureGuids (generator := sample_generator) [1; 2; 3; 4] mixed_textures
                = Some (w', text) →
     objects w' !! 4 = objects mixed_textures !! 4) ∧
  (∀ w' text, FixEmptyTextureGuids (generator := sample_generator) [1; 2; 3; 4] mixed_textures
                = Some (w', text) →
     objects w' !! 4 = objects mixed_textures !! 4).
Proof.
  apply (engine_content_is_refused (generator := sample_generator)
           [1; 2; 3; 4] mixed_textures 4 "/Engine/W").
  - reflexivity.
  - reflexivity.
Defined.

(** The texture of the project with an identifier in [mixed_textures]. *)
Lemma FixEmptyTextureGuids_keeps_valid_identifiers_witness :
  ∃ w' text,
    FixEmptyTextureGuids (generator := sample_generator) [1; 2; 3] mixed_textures
      = Some (w', text) ∧
    objects w' !! 3 = Some (object "/Game/V" 7).
Proof.
  eexists _, _. split; [vm_compute; reflexivity|].
  eapply (FixEmptyTextureGuids_keeps_valid_identifiers (generator := sample_generator)
            [1; 2; 3] mixed_textures _ _ 3 (object "/Game/V" 7)).
  - reflexivity.
  - reflexivity.
  - vm_compute; reflexivity.
Defined.

(** The two materials of [project_and_plugin], in both orders. *)
Lemma collision_with_foreign_object_witness :
  ∃ w1 w2,
    FixMaterialGuids (generator := sample_generator) [1; 2] project_and_plugin
      = Some (w1, "No duplicate material GUIDs found.") ∧
    FixMaterialGuids (generator := sample_generator) [2; 1] project_and_plugin =
      Some (w2, "At least one material GUID has been changed. Use save all to save these changes.") ∧
    w1 = w2 ∧
    GetLightingGuid w1 1 = Some 1000%N ∧
    GetLightingGuid w1 2 = Some 7%N.
Proof.
  apply (collision_with_foreign_object (generator := sample_generator)
           1 2 7%N project_and_plugin).
  - lia.
  - reflexivity.
  - reflexivity.
  - reflexivity.
  - reflexivity.
  - reflexivity.
Defined.
